(** * steam-warmind: the Steam library scanner ([src/utils/steam-library.ts])

    A shallow embedding of the scanner and of its two presentation
    formatters, and the properties of the specification checked against it.

    Modelling conventions.
    - A JavaScript string is a [string]; a character is a code unit below
      256 (so U+00A0 is the only non-ASCII white space that can occur).
    - A JavaScript number that holds an integer is a [Z] and arithmetic
      is exact.  The source computes in doubles, which agree with the exact
      value only in a range: integers up to 2^53 are doubles, their sums up
      to 2^53 are exact, and they print as their decimal digits.  Every
      statement whose truth depends on a numeric value carries the range as
      a hypothesis; each definition that idealises says so.
    - A call that may throw returns a [result]; [try_catch] is the source's
      [try { } catch { }].  [await] is sequencing.  Console output is not
      modelled.
    - Everything the module imports from the host (os, child_process, fs,
      path, and the collation behind [String.prototype.localeCompare]) is a
      field of the record [Host]; the scan reads the host and never changes
      it. *)

From Stdlib Require Import ZArith List Bool Ascii String Lia Sorting.Sorted
  Sorting.Permutation Numbers.DecimalString Arith.PeanoNat
  Classes.RelationClasses.
From Stdlib Require Structures.OrdersEx Numbers.DecimalPos.
Import ListNotations.

Open Scope string_scope.
Open Scope Z_scope.

(** ** Strings *)

Module Str.

Definition dq : ascii := ascii_of_nat 34.

(** [quoted k] is the text of [k] between two double quotes. *)
Definition quoted (k : string) : string := String dq (k ++ String dq "").

Fixpoint all (p : ascii -> bool) (s : string) : bool :=
  match s with
  | EmptyString => true
  | String c s' => p c && all p s'
  end.

Fixpoint rev_onto (s acc : string) : string :=
  match s with
  | EmptyString => acc
  | String c s' => rev_onto s' (String c acc)
  end.

Definition rev (s : string) : string := rev_onto s "".

(** [strip_prefix l s] is the rest of [s] after the literal [l]. *)
Fixpoint strip_prefix (l s : string) : option string :=
  match l with
  | EmptyString => Some s
  | String a l' =>
      match s with
      | EmptyString => None
      | String b s' => if Ascii.eqb a b then strip_prefix l' s' else None
      end
  end.

Definition startsWith (s l : string) : bool :=
  match strip_prefix l s with Some _ => true | None => false end.

Definition endsWith (s l : string) : bool := startsWith (rev s) (rev l).

(** ECMAScript [WhiteSpace] and [LineTerminator] code units below 256. *)
Definition isSpace (c : ascii) : bool :=
  let n := nat_of_ascii c in
  ((9 <=? n) && (n <=? 13) || (n =? 32) || (n =? 160))%nat.

Definition isDigit (c : ascii) : bool :=
  let n := nat_of_ascii c in ((48 <=? n) && (n <=? 57))%nat.

Definition notQuote (c : ascii) : bool := negb (Ascii.eqb c dq).

Fixpoint trimStart (s : string) : string :=
  match s with
  | EmptyString => EmptyString
  | String c s' => if isSpace c then trimStart s' else s
  end.

Definition trim (s : string) : string := rev (trimStart (rev (trimStart s))).

(** ASCII lower-casing, the model of [toLowerCase]. *)
Definition lowerChar (c : ascii) : ascii :=
  let n := nat_of_ascii c in
  if ((65 <=? n) && (n <=? 90))%nat then ascii_of_nat (n + 32) else c.

Fixpoint toLowerCase (s : string) : string :=
  match s with
  | EmptyString => EmptyString
  | String c s' => String (lowerChar c) (toLowerCase s')
  end.

Definition digitVal (c : ascii) : Z := Z.of_nat (nat_of_ascii c) - 48.

Fixpoint parseInt_from (acc : Z) (s : string) : Z :=
  match s with
  | EmptyString => acc
  | String c s' => if isDigit c then parseInt_from (10 * acc + digitVal c) s' else acc
  end.

(** [parseInt] on a run of decimal digits, the only strings the scanner
    passes to it.  The value is exact; the source's [parseInt] returns the
    nearest double, which is this value when it is at most 2^53. *)
Definition parseInt (s : string) : Z := parseInt_from 0 s.

(** Decimal rendering of an integer-valued number: all its digits.  The
    source prints a double this way for integers of magnitude up to 2^53
    (from 1e21 on it uses the exponent form). *)
Definition ofZ (z : Z) : string := NilEmpty.string_of_int (Z.to_int z).

End Str.

(** ** Exceptions *)

Inductive result (A : Type) : Type :=
| Ok (a : A)
| Throw (message : string).
Arguments Ok {A} a.
Arguments Throw {A} message.

Definition bind {A B} (r : result A) (k : A -> result B) : result B :=
  match r with
  | Ok a => k a
  | Throw e => Throw e
  end.

Definition try_catch {A} (body : result A) (handler : string -> result A) : result A :=
  match body with
  | Ok a => Ok a
  | Throw e => handler e
  end.

Notation "x <- c1 ;; c2" := (bind c1 (fun x => c2))
  (at level 61, c1 at next level, right associativity).

(** ** The host *)

Record Host : Type := {
  platform : string;
  execAsync : string -> result string;
  existsSync : string -> bool;
  readFile : string -> result string;
  readdir : string -> result (list string);
  join : list string -> string;
  localeCompare : string -> string -> Z
}.

(** ** Path resolver *)

Definition unsupportedMessage : string :=
  "Steam library browsing is only supported on Windows".

Definition notFoundMessage : string := "Steam installation not found".

Definition registryPaths : list string :=
  [ "HKLM:\SOFTWARE\WOW6432Node\Valve\Steam"; "HKLM:\SOFTWARE\Valve\Steam" ].

Definition registryCommand (path : string) : string :=
  "powershell -Command " ++
  Str.quoted ("Get-ItemProperty -Path '" ++ path ++
              "' -Name 'InstallPath' | Select-Object -ExpandProperty InstallPath").

(** One turn of the [for] loop: [Some p] is [return p], [None] falls
    through to the next registry path (also from the inner [catch]). *)
Definition queryRegistry (h : Host) (path : string) : option string :=
  match execAsync h (registryCommand path) with
  | Ok stdout =>
      let steamPath := Str.trim stdout in
      if negb (steamPath =? "")%string && existsSync h steamPath
      then Some steamPath else None
  | Throw _ => None
  end.

Fixpoint firstRegistryHit (h : Host) (paths : list string) : option string :=
  match paths with
  | [] => None
  | path :: rest =>
      match queryRegistry h path with
      | Some p => Some p
      | None => firstRegistryHit h rest
      end
  end.

Definition getSteamPath (h : Host) : result (option string) :=
  if negb (platform h =? "win32")%string then Throw unsupportedMessage
  else try_catch (Ok (firstRegistryHit h registryPaths)) (fun _ => Ok None).

(** ** Regular expressions

    The fragment of ECMAScript regular expressions the scanner uses: a
    sequence of literals and greedy one-or-more character classes, matched
    by backtracking, with capture groups around a class. *)

Module Regex.

Inductive cclass : Type :=
| Space      (* \s *)
| Digit      (* \d *)
| NotQuote.  (* any character but the double quote *)

Definition inClass (c : cclass) : ascii -> bool :=
  match c with
  | Space => Str.isSpace
  | Digit => Str.isDigit
  | NotQuote => Str.notQuote
  end.

Inductive piece : Type :=
| Lit (l : string)     (* the characters of l *)
| Plus (c : cclass)    (* c+ *)
| Cap (c : cclass).    (* (c+) *)

Definition regex : Type := list piece.

Section Backtracking.
Context {R : Type}.

(** Greedy [c*]: take one more character first, and give the
    continuation [k] what was taken only when the longer attempt fails. *)
Fixpoint star_bt (p : ascii -> bool) (k : string -> string -> option R)
         (s : string) : option R :=
  match s with
  | EmptyString => k "" s
  | String x s' =>
      if p x then
        match star_bt p (fun taken rest => k (String x taken) rest) s' with
        | Some r => Some r
        | None => k "" s
        end
      else k "" s
  end.

Definition plus_bt (p : ascii -> bool) (k : string -> string -> option R)
           (s : string) : option R :=
  match s with
  | EmptyString => None
  | String x s' =>
      if p x then star_bt p (fun taken rest => k (String x taken) rest) s'
      else None
  end.
End Backtracking.

(** Match at the start of [s]: the captures and what is left of [s]. *)
Fixpoint match_here (re : regex) (s : string) {struct re}
  : option (list string * string) :=
  match re with
  | [] => Some ([], s)
  | Lit l :: re' =>
      match Str.strip_prefix l s with
      | Some s' => match_here re' s'
      | None => None
      end
  | Plus c :: re' => plus_bt (inClass c) (fun _ rest => match_here re' rest) s
  | Cap c :: re' =>
      plus_bt (inClass c)
        (fun taken rest =>
           match match_here re' rest with
           | Some (caps, rest') => Some (taken :: caps, rest')
           | None => None
           end) s
  end.

(** A match object: index 0 is the matched text, then the groups. *)
Definition exec_at (re : regex) (s : string) : option (list string) :=
  match match_here re s with
  | Some (caps, rest) =>
      Some (substring 0 (String.length s - String.length rest) s :: caps)
  | None => None
  end.

(** [s.match(re)] without the global flag: the leftmost match, or null. *)
Fixpoint exec (re : regex) (s : string) : option (list string) :=
  match exec_at re s with
  | Some m => Some m
  | None =>
      match s with
      | EmptyString => None
      | String _ s' => exec re s'
      end
  end.

(** [s.match(re)] with the global flag: the text of every match, each
    search resuming where the previous match ended; [skip] counts the
    characters of the current match still to step over. *)
Fixpoint match_global_from (re : regex) (skip : nat) (s : string) : list string :=
  match skip with
  | S k =>
      match s with
      | EmptyString => []
      | String _ s' => match_global_from re k s'
      end
  | O =>
      match exec_at re s with
      | Some m =>
          let whole := nth 0 m "" in
          whole :: match s with
                   | EmptyString => []
                   | String _ s' => match_global_from re (String.length whole - 1) s'
                   end
      | None =>
          match s with
          | EmptyString => []
          | String _ s' => match_global_from re 0 s'
          end
      end
  end.

Definition match_global (re : regex) (s : string) : list string :=
  match_global_from re 0 s.

(** [m?.[1]] *)
Definition group1 (m : option (list string)) : option string :=
  match m with
  | Some (_ :: g :: _) => Some g
  | _ => None
  end.

(** The field pattern: the quoted key, white space, and the quoted
    value, a captured run of [c]. *)
Definition field (key : string) (c : cclass) : regex :=
  [ Lit (Str.quoted key); Plus Space; Lit (String Str.dq ""); Cap c;
    Lit (String Str.dq "") ].

(** The file-name pattern: appmanifest_, captured digits, .acf *)
Definition manifestName : regex := [ Lit "appmanifest_"; Cap Digit; Lit ".acf" ].

End Regex.

(** ** Data model *)

Record SteamGame : Type := {
  appid : Z;
  name : string;
  installDir : string;
  sizeOnDisk : Z;
  lastUpdated : option Z;
  state : option Z
}.

Record SteamLibraryInfo : Type := {
  games : list SteamGame;
  totalSize : Z;
  gameCount : Z
}.

(** ** Library enumerator *)

Definition truthy (s : string) : bool := negb (s =? "")%string.

(** The loop over [pathMatches]: each matched text is matched again for
    its group, and the path is kept when it exists. *)
Fixpoint collectLibraryPaths (h : Host) (pathMatches : list string) : list string :=
  match pathMatches with
  | [] => []
  | m :: rest =>
      match Regex.group1 (Regex.exec (Regex.field "path" Regex.NotQuote) m) with
      | Some path =>
          if truthy path && existsSync h path
          then path :: collectLibraryPaths h rest
          else collectLibraryPaths h rest
      | None => collectLibraryPaths h rest
      end
  end.

Definition getSteamLibraryPaths (h : Host) (steamPath : string) : result (list string) :=
  try_catch
    (let libraryFoldersPath := join h [steamPath; "steamapps"; "libraryfolders.vdf"] in
     if negb (existsSync h libraryFoldersPath) then Ok [steamPath]
     else
       content <- readFile h libraryFoldersPath ;;
       Ok (steamPath ::
           collectLibraryPaths h
             (Regex.match_global (Regex.field "path" Regex.NotQuote) content)))
    (fun _ => Ok [steamPath]).

(** ** Manifest scanner *)

Definition isManifestFile (file : string) : bool :=
  Str.startsWith file "appmanifest_" && Str.endsWith file ".acf".

(** The body of the [try] inside the loop; [Ok None] is [continue]. *)
Definition readManifest (h : Host) (libraryPath manifestFile : string)
  : result (option SteamGame) :=
  let steamappsPath := join h [libraryPath; "steamapps"] in
  let manifestPath := join h [steamappsPath; manifestFile] in
  if negb (existsSync h manifestPath) then Ok None
  else
    content <- readFile h manifestPath ;;
    match Regex.group1 (Regex.exec Regex.manifestName manifestFile) with
    | None => Ok None
    | Some digits =>
        let appid := Str.parseInt digits in
        if (appid =? 228980) || (appid =? 7) then Ok None
        else
          let nameMatch := Regex.group1 (Regex.exec (Regex.field "name" Regex.NotQuote) content) in
          let installDirMatch := Regex.group1 (Regex.exec (Regex.field "installdir" Regex.NotQuote) content) in
          let sizeMatch := Regex.group1 (Regex.exec (Regex.field "SizeOnDisk" Regex.Digit) content) in
          let lastUpdatedMatch := Regex.group1 (Regex.exec (Regex.field "LastUpdated" Regex.Digit) content) in
          let stateMatch := Regex.group1 (Regex.exec (Regex.field "StateFlags" Regex.Digit) content) in
          match nameMatch, installDirMatch with
          | Some nameValue, Some installDirValue =>
              Ok (Some {|
                appid := appid;
                name := nameValue;
                installDir := join h [libraryPath; "steamapps"; "common"; installDirValue];
                sizeOnDisk := match sizeMatch with Some d => Str.parseInt d | None => 0 end;
                lastUpdated := option_map Str.parseInt lastUpdatedMatch;
                state := option_map Str.parseInt stateMatch
              |})
          | _, _ => Ok None
          end
    end.

(** One iteration with its [catch { continue }]. *)
Definition scanManifest (h : Host) (libraryPath manifestFile : string)
  : option SteamGame :=
  match try_catch (readManifest h libraryPath manifestFile) (fun _ => Ok None) with
  | Ok g => g
  | Throw _ => None
  end.

Definition scanManifests (h : Host) (libraryPath : string) (manifestFiles : list string)
  : list SteamGame :=
  fold_left
    (fun games manifestFile =>
       match scanManifest h libraryPath manifestFile with
       | Some game => (games ++ [game])%list
       | None => games
       end)
    manifestFiles [].

Definition parseAppManifests (h : Host) (libraryPath : string) : result (list SteamGame) :=
  try_catch
    (let steamappsPath := join h [libraryPath; "steamapps"] in
     if negb (existsSync h steamappsPath) then Ok []
     else
       files <- readdir h steamappsPath ;;
       let manifestFiles := filter isManifestFile files in
       Ok (scanManifests h libraryPath manifestFiles))
    (fun _ => Ok []).

(** ** Aggregator *)

Section ArrayMethods.
Context {A : Type}.

(** [findIndex]: the index of the first element satisfying [p], or -1. *)
Fixpoint findIndex_from (p : A -> bool) (l : list A) (i : Z) : Z :=
  match l with
  | [] => -1
  | x :: l' => if p x then i else findIndex_from p l' (i + 1)
  end.

Definition findIndex (p : A -> bool) (l : list A) : Z := findIndex_from p l 0.

(** [filter] with the two-argument callback (element, index). *)
Fixpoint filter_from (p : A -> Z -> bool) (l : list A) (i : Z) : list A :=
  match l with
  | [] => []
  | x :: l' =>
      if p x i then x :: filter_from p l' (i + 1) else filter_from p l' (i + 1)
  end.

Definition filteri (p : A -> Z -> bool) (l : list A) : list A := filter_from p l 0.

(** [sort] with a comparator.  The host's algorithm is not in the source;
    it is stable, and this stable insertion sort returns the same array
    whenever the comparator is a consistent one. *)
Fixpoint insert (cmp : A -> A -> Z) (x : A) (l : list A) : list A :=
  match l with
  | [] => [x]
  | y :: l' => if cmp x y <=? 0 then x :: l else y :: insert cmp x l'
  end.

Definition sort (cmp : A -> A -> Z) (l : list A) : list A :=
  fold_right (insert cmp) [] l.
End ArrayMethods.

Definition dedupe (self : list SteamGame) : list SteamGame :=
  filteri (fun game index => index =? findIndex (fun g => appid g =? appid game) self) self.

Definition byName (h : Host) (a b : SteamGame) : Z := localeCompare h (name a) (name b).

(** The loop over the library paths, [allGames.push(...games)]. *)
Fixpoint scanLibraries (h : Host) (libraryPaths : list string) (allGames : list SteamGame)
  : result (list SteamGame) :=
  match libraryPaths with
  | [] => Ok allGames
  | libraryPath :: rest =>
      games <- parseAppManifests h libraryPath ;;
      scanLibraries h rest (allGames ++ games)%list
  end.

Definition getInstalledSteamGames (h : Host) : result SteamLibraryInfo :=
  try_catch
    (steamPath <- getSteamPath h ;;
     match steamPath with
     | None => Throw notFoundMessage
     | Some steamPath =>
         if negb (truthy steamPath) then Throw notFoundMessage
         else
           libraryPaths <- getSteamLibraryPaths h steamPath ;;
           allGames <- scanLibraries h libraryPaths [] ;;
           let uniqueGames := sort (byName h) (dedupe allGames) in
           let totalSize := fold_left (fun sum game => sum + sizeOnDisk game) uniqueGames 0 in
           Ok {| games := uniqueGames;
                 totalSize := totalSize;
                 gameCount := Z.of_nat (List.length uniqueGames) |}
     end)
    (fun error => Throw error).

(** ** Presentation formatters *)

Definition sizes : list string := ["B"; "KB"; "MB"; "GB"; "TB"].

(** [sizes[i]] inside a string concatenation: a missing element reads
    [undefined]. *)
Definition unitAt (i : Z) : string :=
  if i <? 0 then "undefined" else nth (Z.to_nat i) sizes "undefined".

(** The decimal text of [hundredths / 100], as number-to-string prints a
    value with at most two decimals. *)
Definition showHundredths (hundredths : Z) : string :=
  let q := hundredths / 100 in
  let r := hundredths mod 100 in
  if r =? 0 then Str.ofZ q
  else if r mod 10 =? 0 then Str.ofZ q ++ "." ++ Str.ofZ (r / 10)
  else Str.ofZ q ++ "." ++ (if r <? 10 then "0" else "") ++ Str.ofZ r.

(** [Math.round(x)] for the rational [x = a / b], [b > 0].  In
    [formatFileSize] the source rounds the double [(bytes / 1024^i) * 100],
    which is this rational exactly when [bytes < 2^46]. *)
Definition roundDiv (a b : Z) : Z := (2 * a + b) / (2 * b).

(** [Math.floor(Math.log(bytes) / Math.log(1024))] for [bytes >= 1],
    computed exactly.  The source takes the quotient of two doubles, which
    floors to this index for [bytes < 2^46] and for [bytes >= 1024^5] stays
    at least 5, but reaches 5 already a few bytes below [1024^5]. *)
Definition log1024 (bytes : Z) : Z := Z.log2 bytes / 10.

Definition formatFileSize (bytes : Z) : string :=
  if bytes =? 0 then "0 B"
  else if bytes <? 0 then "NaN undefined"
  else
    let i := log1024 bytes in
    showHundredths (roundDiv (bytes * 100) (1024 ^ i)) ++ " " ++ unitAt i.

(** [nowMs] is the value of [Date.now()], in milliseconds; [timestamp] is
    in seconds.  The day difference is computed exactly; the source floors
    a quotient of doubles, which is this number while the timestamp is at
    most 2^33 in magnitude. *)
Definition daysSince (nowMs timestamp : Z) : Z :=
  (nowMs - 1000 * timestamp) / (1000 * (24 * 60 * 60)).

Definition formatLastUpdated (nowMs timestamp : Z) : string :=
  let days := daysSince nowMs timestamp in
  if days =? 0 then "Today"
  else if days =? 1 then "Yesterday"
  else if days <? 7 then Str.ofZ days ++ " days ago"
  else if days <? 30 then Str.ofZ (days / 7) ++ " weeks ago"
  else Str.ofZ (days / 30) ++ " months ago".

(** ** The views ([src/library.tsx], [src/steam-store.tsx])

    Of the two React components the state, the computations on it and the
    actions are modelled; an action returns the calls it makes to the
    desktop, in order.  [open] and [encodeURIComponent] belong to the
    desktop; [showToast] is not awaited and does not throw. *)

Module Latin1.

(** [toLowerCase] on code units below 256: the ASCII capitals and the
    Latin-1 capitals U+00C0 to U+00DE without the multiplication sign. *)
Definition lowerChar (c : ascii) : ascii :=
  let n := nat_of_ascii c in
  if ((65 <=? n) && (n <=? 90) || (192 <=? n) && (n <=? 214) ||
      (216 <=? n) && (n <=? 222))%nat
  then ascii_of_nat (n + 32) else c.

Fixpoint toLowerCase (s : string) : string :=
  match s with
  | EmptyString => EmptyString
  | String c s' => String (lowerChar c) (toLowerCase s')
  end.

End Latin1.

(** [s.includes(t)] *)
Fixpoint includes (s t : string) : bool :=
  Str.startsWith s t ||
  match s with
  | EmptyString => false
  | String _ s' => includes s' t
  end.

Module Ui.

Inductive ToastStyle : Type := Success | Failure | Animated.

Record Toast : Type := {
  style : ToastStyle;
  title : string;
  message : string
}.

Inductive Effect : Type :=
| Open (target : string)
| ShowToast (toast : Toast).

End Ui.

Record Desktop : Type := {
  open : string -> result unit;
  encodeURIComponent : string -> string
}.

Module Library.

(** The state of the component. *)
Record State : Type := {
  games : list SteamGame;
  isLoading : bool;
  searchText : string;
  totalSize : Z;
  gameCount : Z
}.

Definition initial : State :=
  {| games := []; isLoading := true; searchText := ""; totalSize := 0; gameCount := 0 |}.

End Library.

(** The state after [loadLibrary] has run, and the toast it shows. *)
Definition loadLibrary (h : Host) (st : Library.State) : Library.State * Ui.Toast :=
  match getInstalledSteamGames h with
  | Ok libraryInfo =>
      ({| Library.games := games libraryInfo;
          Library.isLoading := false;
          Library.searchText := Library.searchText st;
          Library.totalSize := totalSize libraryInfo;
          Library.gameCount := gameCount libraryInfo |},
       if 0 <? gameCount libraryInfo then
         {| Ui.style := Ui.Success;
            Ui.title := "Library Loaded";
            Ui.message := "Found " ++ Str.ofZ (gameCount libraryInfo) ++ " installed games" |}
       else
         {| Ui.style := Ui.Animated;
            Ui.title := "No Games Found";
            Ui.message :=
              "No Steam games detected. Make sure Steam is installed and games are installed." |})
  | Throw _ =>
      ({| Library.games := Library.games st;
          Library.isLoading := false;
          Library.searchText := Library.searchText st;
          Library.totalSize := Library.totalSize st;
          Library.gameCount := Library.gameCount st |},
       {| Ui.style := Ui.Failure;
          Ui.title := "Library Load Failed";
          Ui.message := "Could not load Steam library. Check console for details." |})
  end.

Definition launchGame (desk : Desktop) (appId : Z) (gameName : string) : list Ui.Effect :=
  let target := "steam://run/" ++ Str.ofZ appId in
  match open desk target with
  | Ok _ =>
      [ Ui.Open target;
        Ui.ShowToast {| Ui.style := Ui.Success; Ui.title := "Game Launched";
                        Ui.message := "Starting " ++ gameName |} ]
  | Throw _ =>
      [ Ui.Open target;
        Ui.ShowToast {| Ui.style := Ui.Failure; Ui.title := "Launch Failed";
                        Ui.message :=
                          "Could not launch the game. Make sure Steam is installed and running." |} ]
  end.

Definition filteredGames (shown : list SteamGame) (searchText : string) : list SteamGame :=
  filter (fun game =>
            includes (Latin1.toLowerCase (name game)) (Latin1.toLowerCase searchText))
         shown.

(** A number in a condition: [undefined] and 0 are false. *)
Definition truthyNumber (n : option Z) : bool :=
  match n with
  | Some z => negb (z =? 0)
  | None => false
  end.

Definition numberOr0 (n : option Z) : Z :=
  match n with
  | Some z => z
  | None => 0
  end.

(** The comparator of the view: by last update, most recent first, when
    both games have one, else by name. *)
Definition byRecency (h : Host) (a b : SteamGame) : Z :=
  if truthyNumber (lastUpdated a) && truthyNumber (lastUpdated b)
  then numberOr0 (lastUpdated b) - numberOr0 (lastUpdated a)
  else localeCompare h (name a) (name b).

Definition sortedGames (h : Host) (shown : list SteamGame) (searchText : string)
  : list SteamGame :=
  sort (byRecency h) (filteredGames shown searchText).

Module Store.

Inductive Icon : Type :=
| Star | Trophy | Gift | Hammer | Eye | Brush | Bolt | ChessPiece | Gear | SoccerBall.

Record StoreCategory : Type := {
  title : string;
  url : string;
  icon : Icon;
  description : string
}.

Definition storeCategories : list StoreCategory :=
  [ {| title := "Featured"; url := "https://store.steampowered.com/";
       icon := Star; description := "Featured games and deals" |};
    {| title := "New Releases"; url := "https://store.steampowered.com/new/";
       icon := Star; description := "Latest game releases" |};
    {| title := "Top Sellers";
       url := "https://store.steampowered.com/search/?sort_by=_ASC&category1=998&os=win";
       icon := Trophy; description := "Best selling games" |};
    {| title := "Free to Play";
       url := "https://store.steampowered.com/genre/Free%20to%20Play/";
       icon := Gift; description := "Free games to play" |};
    {| title := "Early Access";
       url := "https://store.steampowered.com/genre/Early%20Access/";
       icon := Hammer; description := "Games in development" |};
    {| title := "VR Games"; url := "https://store.steampowered.com/vr/";
       icon := Eye; description := "Virtual Reality games" |};
    {| title := "Indie Games"; url := "https://store.steampowered.com/tags/en/Indie/";
       icon := Brush; description := "Independent game developers" |};
    {| title := "Action Games"; url := "https://store.steampowered.com/tags/en/Action/";
       icon := Bolt; description := "Fast-paced action games" |};
    {| title := "RPG Games"; url := "https://store.steampowered.com/tags/en/RPG/";
       icon := Bolt; description := "Role-playing games" |};
    {| title := "Strategy Games";
       url := "https://store.steampowered.com/tags/en/Strategy/";
       icon := ChessPiece; description := "Strategic thinking games" |};
    {| title := "Simulation Games";
       url := "https://store.steampowered.com/tags/en/Simulation/";
       icon := Gear; description := "Life and business simulators" |};
    {| title := "Sports Games"; url := "https://store.steampowered.com/tags/en/Sports/";
       icon := SoccerBall; description := "Sports and racing games" |} ].

Definition searchStore (desk : Desktop) (query : string) : list Ui.Effect :=
  if negb (truthy (Str.trim query)) then
    [ Ui.ShowToast {| Ui.style := Ui.Failure; Ui.title := "Search Query Required";
                      Ui.message := "Please enter a search term" |} ]
  else
    let searchUrl :=
      "https://store.steampowered.com/search/?term=" ++ encodeURIComponent desk query in
    match open desk searchUrl with
    | Ok _ =>
        [ Ui.Open searchUrl;
          Ui.ShowToast {| Ui.style := Ui.Success; Ui.title := "Search Opened";
                          Ui.message := "Searching for " ++ Str.quoted query |} ]
    | Throw _ =>
        [ Ui.Open searchUrl;
          Ui.ShowToast {| Ui.style := Ui.Failure; Ui.title := "Search Failed";
                          Ui.message := "Could not open the search page" |} ]
    end.

Definition filteredCategories (searchText : string) : list StoreCategory :=
  filter (fun category =>
            includes (Latin1.toLowerCase (title category)) (Latin1.toLowerCase searchText) ||
            includes (Latin1.toLowerCase (description category))
                     (Latin1.toLowerCase searchText))
         storeCategories.

End Store.

(** ** A concrete host

    A small Windows machine, used to run the scanner: Steam in [C:\Steam],
    a second library in [D:\Games], Dota 2 installed in both, and the
    manifests of the two housekeeping applications. *)

Module Demo.

Definition tab : string := String (ascii_of_nat 9) "".
Definition lf : string := String (ascii_of_nat 10) "".
Definition crlf : string := String (ascii_of_nat 13) lf.

(** One line of a descriptor: the quoted key, two tabs, the quoted value. *)
Definition kv (key value : string) : string :=
  tab ++ Str.quoted key ++ tab ++ tab ++ Str.quoted value ++ lf.

Fixpoint lookup {A : Type} (k : string) (l : list (string * A)) : option A :=
  match l with
  | [] => None
  | (k', v) :: l' => if (k =? k')%string then Some v else lookup k l'
  end.

(** A two-level collation: letters first compare without case; among
    names equal up to case, lower case sorts first. *)
Definition sign (c : comparison) : Z :=
  match c with Lt => -1 | Eq => 0 | Gt => 1 end.

Definition collate (a b : string) : Z :=
  match OrdersEx.String_as_OT.compare (Str.toLowerCase a) (Str.toLowerCase b) with
  | Eq => sign (OrdersEx.String_as_OT.compare b a)
  | c => sign c
  end.

(** [x] does not come after [y] in code-unit order. *)
Definition notAfter (x y : string) : Prop :=
  OrdersEx.String_as_OT.compare x y <> Gt.

Definition manifest (nameValue installDirValue sizeValue : string) : string :=
  Str.quoted "AppState" ++ lf ++ "{" ++ lf ++
  kv "name" nameValue ++ kv "StateFlags" "4" ++
  kv "installdir" installDirValue ++ kv "LastUpdated" "1700000000" ++
  kv "SizeOnDisk" sizeValue ++ "}" ++ lf.

Definition libraryFolders : string :=
  Str.quoted "libraryfolders" ++ lf ++ "{" ++ lf ++
  kv "path" "C:\\Steam" ++ kv "path" "D:\\Games" ++ kv "path" "E:\\Gone" ++
  "}" ++ lf.

Definition directories : list (string * list string) :=
  [ ("C:\Steam", ["steamapps"; "steam.exe"]);
    ("C:\Steam\steamapps",
      ["appmanifest_570.acf"; "appmanifest_7.acf"; "appmanifest_228980.acf";
       "appmanifest_440.acf"; "appmanifest_620.acf"; "appmanifest_x.acf";
       "libraryfolders.vdf"; "common"]);
    ("C:\\Steam", ["steamapps"; "steam.exe"]);
    ("C:\\Steam\steamapps",
      ["appmanifest_570.acf"; "appmanifest_7.acf"; "appmanifest_228980.acf";
       "appmanifest_440.acf"; "appmanifest_620.acf"; "appmanifest_x.acf";
       "libraryfolders.vdf"; "common"]);
    ("D:\\Games", ["steamapps"]);
    ("D:\\Games\steamapps",
      ["appmanifest_570.acf"; "appmanifest_400.acf"; "appmanifest_730.acf"]) ].

Definition dota : string := manifest "Dota 2" "dota 2 beta" "12000000000".

(** A manifest whose nested block repeats the keys of the outer one. *)
Definition counterStrike : string :=
  manifest "Counter-Strike 2" "Counter-Strike Global Offensive" "35000000000" ++
  Str.quoted "UserConfig" ++ lf ++ "{" ++ lf ++
  kv "name" "cs2 (beta)" ++ kv "installdir" "elsewhere" ++
  kv "SizeOnDisk" "1" ++ kv "LastUpdated" "2" ++ kv "StateFlags" "3" ++ "}" ++ lf.

(** Team Fortress 2 has no install directory recorded; Portal 2 has a
    size that is not a number. *)
Definition textFiles : list (string * string) :=
  [ ("C:\Steam\steamapps\libraryfolders.vdf", libraryFolders);
    ("C:\Steam\steamapps\appmanifest_570.acf", dota);
    ("C:\Steam\steamapps\appmanifest_7.acf", manifest "Steam Client" "Steam" "1");
    ("C:\Steam\steamapps\appmanifest_228980.acf",
      manifest "Steamworks Common Redistributables" "Steamworks Shared" "2");
    ("C:\Steam\steamapps\appmanifest_440.acf", kv "name" "Team Fortress 2");
    ("C:\Steam\steamapps\appmanifest_620.acf",
      kv "name" "portal 2" ++ kv "installdir" "Portal 2" ++ kv "SizeOnDisk" "big");
    ("C:\\Steam\steamapps\appmanifest_570.acf", dota);
    ("C:\\Steam\steamapps\appmanifest_620.acf",
      kv "name" "portal 2" ++ kv "installdir" "Portal 2" ++ kv "SizeOnDisk" "big");
    ("D:\\Games\steamapps\appmanifest_570.acf", dota);
    ("D:\\Games\steamapps\appmanifest_400.acf", manifest "Portal" "Portal" "4000000000");
    ("D:\\Games\steamapps\appmanifest_730.acf", counterStrike) ].

Definition win32 (registry : list (string * string)) : Host := {|
  platform := "win32";
  execAsync := fun command =>
    match lookup command registry with
    | Some value => Ok value
    | None => Throw "Command failed"
    end;
  existsSync := fun p =>
    match lookup p directories, lookup p textFiles with
    | None, None => false
    | _, _ => true
    end;
  readFile := fun p =>
    match lookup p textFiles with
    | Some text => Ok text
    | None => Throw "ENOENT: no such file or directory"
    end;
  readdir := fun p =>
    match lookup p directories with
    | Some entries => Ok entries
    | None => Throw "ENOENT: no such file or directory"
    end;
  join := String.concat "\";
  localeCompare := collate
|}.

(** Steam is registered under the native key only. *)
Definition host : Host :=
  win32 [ (registryCommand "HKLM:\SOFTWARE\Valve\Steam", "C:\Steam" ++ crlf) ].

(** Nothing is registered. *)
Definition bare : Host := win32 [].

Definition linux : Host := {|
  platform := "linux";
  execAsync := fun _ => Throw "spawn powershell ENOENT";
  existsSync := fun _ => false;
  readFile := fun _ => Throw "ENOENT: no such file or directory";
  readdir := fun _ => Throw "ENOENT: no such file or directory";
  join := String.concat "/";
  localeCompare := collate
|}.

End Demo.

(** A desktop that knows the steam protocol and nothing else. *)
Module DemoDesk.

Definition steamOnly : Desktop := {|
  open := fun target =>
    if Str.startsWith target "steam://" then Ok tt
    else Throw "No application knows how to open the URL";
  encodeURIComponent := fun s => s
|}.

Definition browser : Desktop := {|
  open := fun _ => Ok tt;
  encodeURIComponent := fun s => s
|}.

End DemoDesk.

(** Further machines.  [NoIntl] is a runtime built without the
    internationalisation library, whose [localeCompare] compares code
    units; [secondDisk] has Steam registered in [D:\Games], a library with
    no application twice; [emptyLibrary] has it registered in a directory
    without steamapps. *)
Module NoIntl.

Definition compareCodeUnits (a b : string) : Z :=
  Demo.sign (OrdersEx.String_as_OT.compare a b).

Definition directories : list (string * list string) :=
  [ ("C:\Steam", ["steamapps"]);
    ("C:\Steam\steamapps", ["appmanifest_10.acf"; "appmanifest_20.acf"]) ].

Definition textFiles : list (string * string) :=
  [ ("C:\Steam\steamapps\appmanifest_10.acf", Demo.manifest "apple" "apple" "1000");
    ("C:\Steam\steamapps\appmanifest_20.acf",
      Demo.manifest "Zoo Tycoon" "Zoo Tycoon" "2000") ].

Definition host : Host := {|
  platform := "win32";
  execAsync := fun command =>
    if (command =? registryCommand "HKLM:\SOFTWARE\Valve\Steam")%string
    then Ok ("C:\Steam" ++ Demo.crlf) else Throw "Command failed";
  existsSync := fun p =>
    match Demo.lookup p directories, Demo.lookup p textFiles with
    | None, None => false
    | _, _ => true
    end;
  readFile := fun p =>
    match Demo.lookup p textFiles with
    | Some text => Ok text
    | None => Throw "ENOENT: no such file or directory"
    end;
  readdir := fun p =>
    match Demo.lookup p directories with
    | Some entries => Ok entries
    | None => Throw "ENOENT: no such file or directory"
    end;
  join := String.concat "\";
  localeCompare := compareCodeUnits
|}.

End NoIntl.

Module Machines.

Definition secondDisk : Host :=
  Demo.win32 [ (registryCommand "HKLM:\SOFTWARE\WOW6432Node\Valve\Steam",
                "D:\\Games" ++ Demo.crlf) ].

Definition emptyLibrary : Host :=
  Demo.win32 [ (registryCommand "HKLM:\SOFTWARE\Valve\Steam",
                "C:\Steam\steamapps" ++ Demo.crlf) ].

End Machines.

(** ** Specification vocabulary *)

(** The registry key [key] resolves to [p]: the query succeeds and its
    trimmed output [p] is a non-empty path that exists on disk. *)
Definition resolves (h : Host) (key p : string) : Prop :=
  exists stdout,
    execAsync h (registryCommand key) = Ok stdout /\
    p = Str.trim stdout /\ p <> "" /\ existsSync h p = true.

(** What one manifest file contributes to the scan of its library. *)
Definition contribution (h : Host) (libraryPath manifestFile : string) : list SteamGame :=
  match scanManifest h libraryPath manifestFile with
  | Some game => [game]
  | None => []
  end.

Definition steamappsOf (h : Host) (libraryPath : string) : string :=
  join h [libraryPath; "steamapps"].

Definition manifestPathOf (h : Host) (libraryPath manifestFile : string) : string :=
  join h [steamappsOf h libraryPath; manifestFile].

Definition reserved (id : Z) : Prop := id = 228980 \/ id = 7.

(** The games one library path contributes to the scan. *)
Definition libraryGames (h : Host) (libraryPath : string) : list SteamGame :=
  match parseAppManifests h libraryPath with
  | Ok found => found
  | Throw _ => []
  end.

(** The result record built from the final list of games. *)
Definition summary (uniqueGames : list SteamGame) : SteamLibraryInfo :=
  {| games := uniqueGames;
     totalSize := fold_left (fun sum game => sum + sizeOnDisk game) uniqueGames 0;
     gameCount := Z.of_nat (List.length uniqueGames) |}.

(** [value] is what a field pattern captures in a text: [m[1]] of the
    match, or nothing when the pattern does not match. *)
Definition fieldValue (key : string) (c : Regex.cclass) (content : string)
  : option string :=
  Regex.group1 (Regex.exec (Regex.field key c) content).

(** The text [s] begins with the quoted key, white space, and the quoted
    value [v], a non-empty run of characters of class [c]; [rest] follows. *)
Definition field_at (key : string) (c : Regex.cclass) (s v rest : string) : Prop :=
  exists ws,
    s = Str.quoted key ++ ws ++ String Str.dq (v ++ String Str.dq rest) /\
    ws <> "" /\ Str.all Str.isSpace ws = true /\
    v <> "" /\ Str.all (Regex.inClass c) v = true.

(** An occurrence of the field pattern in [content], right after the
    prefix [before], with value [v]. *)
Definition occurs (key : string) (c : Regex.cclass) (content before v : string) : Prop :=
  exists suffix rest, content = before ++ suffix /\ field_at key c suffix v rest.

(** [v] is the value of the first occurrence of the pattern in [content]. *)
Definition first_occurrence (key : string) (c : Regex.cclass) (content v : string) : Prop :=
  exists before,
    occurs key c content before v /\
    forall before' v', occurs key c content before' v' ->
                       (String.length before <= String.length before')%nat.

Definition absent (key : string) (c : Regex.cclass) (content : string) : Prop :=
  forall before v, ~ occurs key c content before v.

(** The name [appmanifest_<digits>.acf]. *)
Definition manifestFileName (digits : string) : string :=
  "appmanifest_" ++ digits ++ ".acf".

Definition digitRun (digits : string) : Prop :=
  digits <> "" /\ Str.all Str.isDigit digits = true.

(** The record the scanner builds for application [id] from the text of
    its manifest, given the values of the two required fields. *)
Definition gameRecord (h : Host) (libraryPath : string) (id : Z)
           (content nameValue installDirValue : string) : SteamGame :=
  {| appid := id;
     name := nameValue;
     installDir := join h [libraryPath; "steamapps"; "common"; installDirValue];
     sizeOnDisk :=
       match fieldValue "SizeOnDisk" Regex.Digit content with
       | Some d => Str.parseInt d
       | None => 0
       end;
     lastUpdated := option_map Str.parseInt (fieldValue "LastUpdated" Regex.Digit content);
     state := option_map Str.parseInt (fieldValue "StateFlags" Regex.Digit content) |}.

(** The comparator of the sort, as an order on games. *)
Definition nameOrder (h : Host) (a b : SteamGame) : Prop :=
  localeCompare h (name a) (name b) <= 0.

(** The same order with the case of the names ignored. *)
Definition nameOrderNoCase (h : Host) (a b : SteamGame) : Prop :=
  localeCompare h (Str.toLowerCase (name a)) (Str.toLowerCase (name b)) <= 0.

(** The host's collation is a consistent comparator: total and
    transitive. *)
Definition consistentCollation (h : Host) : Prop :=
  (forall a b, localeCompare h a b <= 0 \/ localeCompare h b a <= 0) /\
  (forall a b c, localeCompare h a b <= 0 -> localeCompare h b c <= 0 ->
                 localeCompare h a c <= 0).

(** Case is at most a tie-break of the host's collation: two names in
    order stay in order when their case is ignored. *)
Definition caseBreaksTiesOnly (h : Host) : Prop :=
  forall a b, localeCompare h a b <= 0 ->
              localeCompare h (Str.toLowerCase a) (Str.toLowerCase b) <= 0.

(** [g] is the first record with its appid in [allGames]. *)
Definition firstWithId (allGames : list SteamGame) (g : SteamGame) : Prop :=
  exists earlier later,
    allGames = (earlier ++ g :: later)%list /\
    Forall (fun x => appid x <> appid g) earlier.

(** A text that does not begin, or does not end, with white space. *)
Definition startsTight (s : string) : Prop :=
  match s with
  | EmptyString => False
  | String c _ => Str.isSpace c = false
  end.

Definition endsTight (s : string) : Prop := startsTight (Str.rev s).

(** The lists of games one scan concatenates, library after library. *)
Definition allFound (h : Host) (libraryPaths : list string) : list SteamGame :=
  flat_map (libraryGames h) libraryPaths.

(** What every record built by the scanner satisfies. *)
Definition wellFormedGame (g : SteamGame) : Prop :=
  name g <> "" /\ Str.all Str.notQuote (name g) = true /\
  0 <= appid g /\ ~ reserved (appid g) /\ 0 <= sizeOnDisk g /\
  (forall t, lastUpdated g = Some t -> 0 <= t) /\
  (forall f, state g = Some f -> 0 <= f).

Definition isZeroChar (c : ascii) : bool := (nat_of_ascii c =? 48)%nat.

(** The update time a game is ranked by in the view. *)
Definition recency (g : SteamGame) : Z := numberOr0 (lastUpdated g).

Definition hasUpdateTime (g : SteamGame) : Prop := truthyNumber (lastUpdated g) = true.

(** The integers up to which every integer is a double, so that a number
    of the source holds exactly the value computed here. *)
Definition exactNumber (z : Z) : Prop := z <= 2 ^ 53.

(** ** Strings: lemmas *)

Lemma append_assoc (a b c : string) : (a ++ b) ++ c = a ++ (b ++ c).
Proof. induction a as [|x a IH]; cbn; [reflexivity|now rewrite IH]. Qed.

Lemma append_nil_r (a : string) : a ++ "" = a.
Proof. induction a as [|x a IH]; cbn; [reflexivity|now rewrite IH]. Qed.

Lemma length_append (a b : string) :
  String.length (a ++ b) = (String.length a + String.length b)%nat.
Proof. induction a as [|x a IH]; cbn; [reflexivity|now rewrite IH]. Qed.

Lemma append_inv_head (a b c : string) : a ++ b = a ++ c -> b = c.
Proof. induction a as [|x a IH]; cbn; [auto|]. intros [= H]. auto. Qed.

Lemma all_append (p : ascii -> bool) (a b : string) :
  Str.all p (a ++ b) = Str.all p a && Str.all p b.
Proof.
  induction a as [|x a IH]; cbn; [reflexivity|]. now rewrite IH, andb_assoc.
Qed.

Lemma all_weaken (p q : ascii -> bool) (s : string) :
  (forall x, p x = true -> q x = true) -> Str.all p s = true -> Str.all q s = true.
Proof.
  intros W. induction s as [|x s IH]; cbn; [reflexivity|].
  intros H. apply andb_true_iff in H as [Hx Hs]. now rewrite (W x Hx), IH.
Qed.

Lemma rev_onto_append (s acc : string) : Str.rev_onto s acc = Str.rev s ++ acc.
Proof.
  unfold Str.rev. revert acc. induction s as [|x s IH]; intros acc; cbn.
  - reflexivity.
  - rewrite (IH (String x acc)), (IH (String x "")), append_assoc. reflexivity.
Qed.

Lemma rev_append (a b : string) : Str.rev (a ++ b) = Str.rev b ++ Str.rev a.
Proof.
  unfold Str.rev at 1. revert b. induction a as [|x a IH]; intros b; cbn.
  - now rewrite append_nil_r.
  - change (String x "") with ("" ++ String x "").
    rewrite rev_onto_append. cbn.
    rewrite <- (append_nil_r (Str.rev (a ++ b))).
    unfold Str.rev at 1. rewrite IH.
    unfold Str.rev at 3. cbn. rewrite (rev_onto_append a (String x "")).
    now rewrite !append_assoc.
Qed.

Lemma strip_prefix_append (l s : string) : Str.strip_prefix l (l ++ s) = Some s.
Proof.
  induction l as [|x l IH]; cbn; [reflexivity|]. now rewrite Ascii.eqb_refl.
Qed.

Lemma strip_prefix_some (l s r : string) :
  Str.strip_prefix l s = Some r -> s = l ++ r.
Proof.
  revert s. induction l as [|x l IH]; intros s; cbn.
  - now intros [= ->].
  - destruct s as [|y s]; [discriminate|].
    destruct (Ascii.eqb_spec x y) as [->|]; [|discriminate].
    intros H. now rewrite (IH s H).
Qed.

Lemma startsWith_append (l s : string) : Str.startsWith (l ++ s) l = true.
Proof. unfold Str.startsWith. now rewrite strip_prefix_append. Qed.

Lemma endsWith_append (s l : string) : Str.endsWith (s ++ l) l = true.
Proof. unfold Str.endsWith. rewrite rev_append. apply startsWith_append. Qed.

(** ** Path resolver: results *)

Lemma queryRegistry_resolves (h : Host) (key p : string) :
  queryRegistry h key = Some p <-> resolves h key p.
Proof.
  unfold queryRegistry, resolves. split.
  - destruct (execAsync h (registryCommand key)) as [stdout|e]; [|discriminate].
    cbv zeta.
    destruct (Str.trim stdout =? "")%string eqn:E; [discriminate|].
    destruct (existsSync h (Str.trim stdout)) eqn:X; [|discriminate].
    cbn. intros [= <-]. exists stdout. repeat split; auto.
    now apply String.eqb_neq.
  - intros (stdout & -> & -> & Hne & Hex).
    cbv zeta. apply String.eqb_neq in Hne. now rewrite Hne, Hex.
Qed.

Lemma firstRegistryHit_none (h : Host) (keys : list string) :
  firstRegistryHit h keys = None <->
  forall key p, In key keys -> ~ resolves h key p.
Proof.
  induction keys as [|k keys IH]; cbn.
  - split; [intros _ ? ? []|reflexivity].
  - destruct (queryRegistry h k) as [p|] eqn:Q.
    + split; [discriminate|]. intros H. exfalso.
      apply (H k p); [now left|]. now apply queryRegistry_resolves.
    + rewrite IH. split.
      * intros H key p [<-|Hin] R; [|now apply (H key p)].
        apply queryRegistry_resolves in R. congruence.
      * intros H key p Hin. apply H. now right.
Qed.

Lemma firstRegistryHit_some (h : Host) (keys : list string) (p : string) :
  firstRegistryHit h keys = Some p ->
  exists before key after,
    keys = (before ++ key :: after)%list /\ resolves h key p /\
    forall k q, In k before -> ~ resolves h k q.
Proof.
  induction keys as [|k keys IH]; cbn; [discriminate|].
  destruct (queryRegistry h k) as [q|] eqn:Q.
  - intros [= ->]. exists [], k, keys. split; [reflexivity|]. split.
    + now apply queryRegistry_resolves.
    + intros ? ? [].
  - intros H. destruct (IH H) as (before & key & after & -> & R & N).
    exists (k :: before), key, after. split; [reflexivity|]. split; [assumption|].
    intros k' q' [<-|Hin] R'; [|now apply (N k' q')].
    apply queryRegistry_resolves in R'. congruence.
Qed.

Lemma getSteamPath_win32 (h : Host) :
  platform h = "win32" -> getSteamPath h = Ok (firstRegistryHit h registryPaths).
Proof. unfold getSteamPath. intros ->. reflexivity. Qed.

Lemma getSteamPath_other (h : Host) :
  platform h <> "win32" -> getSteamPath h = Throw unsupportedMessage.
Proof.
  unfold getSteamPath. intros H. apply String.eqb_neq in H. now rewrite H.
Qed.

(** C1, as the code has it.  On a platform other than win32 the resolver
    throws.  On win32 it never throws: it returns null exactly when neither
    registry key resolves to a non-empty path that exists on disk, and
    otherwise the path of the first key that does. *)
Theorem getSteamPath_absence (h : Host) :
  (platform h <> "win32" -> getSteamPath h = Throw unsupportedMessage) /\
  (platform h = "win32" ->
   exists r, getSteamPath h = Ok r /\
     (r = None <-> forall key p, In key registryPaths -> ~ resolves h key p) /\
     (forall p, r = Some p ->
        exists before key after,
          registryPaths = (before ++ key :: after)%list /\ resolves h key p /\
          forall k q, In k before -> ~ resolves h k q)).
Proof.
  split; [apply getSteamPath_other|].
  intros W. exists (firstRegistryHit h registryPaths).
  split; [now apply getSteamPath_win32|]. split.
  - apply firstRegistryHit_none.
  - intros p. apply firstRegistryHit_some.
Qed.

Lemma getSteamPath_absence_witness :
  getSteamPath Demo.linux = Throw unsupportedMessage /\
  exists r, getSteamPath Demo.bare = Ok r /\
    (r = None <-> forall key p, In key registryPaths -> ~ resolves Demo.bare key p).
Proof.
  split.
  - apply (getSteamPath_absence Demo.linux). discriminate.
  - destruct (proj2 (getSteamPath_absence Demo.bare) eq_refl) as (r & E & N & _).
    exists r. split; assumption.
Defined.

(** C1 as stated fails: on a Linux host the resolver throws instead of
    returning null. *)
Lemma getSteamPath_throws_on_linux :
  platform Demo.linux <> "win32" /\
  getSteamPath Demo.linux <> Ok None /\
  getSteamPath Demo.linux = Throw unsupportedMessage.
Proof. repeat split; discriminate. Qed.

(** ** Error propagation *)

Lemma getSteamLibraryPaths_ok (h : Host) (steamPath : string) :
  exists extras, getSteamLibraryPaths h steamPath = Ok (steamPath :: extras).
Proof.
  unfold getSteamLibraryPaths. cbv zeta.
  destruct (existsSync h _); cbn.
  - destruct (readFile h _) as [content|e]; cbn; eauto.
  - eauto.
Qed.

Lemma getSteamLibraryPaths_unreadable (h : Host) (steamPath e : string) :
  readFile h (join h [steamPath; "steamapps"; "libraryfolders.vdf"]) = Throw e ->
  getSteamLibraryPaths h steamPath = Ok [steamPath].
Proof.
  unfold getSteamLibraryPaths. cbv zeta. intros ->.
  now destruct (existsSync h _).
Qed.

Lemma scanManifests_from (h : Host) (lib : string) (files : list string)
      (acc : list SteamGame) :
  fold_left
    (fun found file =>
       match scanManifest h lib file with
       | Some game => (found ++ [game])%list
       | None => found
       end) files acc
  = (acc ++ flat_map (contribution h lib) files)%list.
Proof.
  revert acc. induction files as [|f files IH]; intros acc; cbn.
  - now rewrite app_nil_r.
  - rewrite IH. unfold contribution.
    destruct (scanManifest h lib f); cbn; [now rewrite <- app_assoc|reflexivity].
Qed.

Lemma scanManifests_contributions (h : Host) (lib : string) (files : list string) :
  scanManifests h lib files = flat_map (contribution h lib) files.
Proof. unfold scanManifests. now rewrite scanManifests_from. Qed.

Lemma parseAppManifests_eq (h : Host) (lib : string) :
  parseAppManifests h lib =
  Ok (if existsSync h (steamappsOf h lib) then
        match readdir h (steamappsOf h lib) with
        | Ok files => flat_map (contribution h lib) (filter isManifestFile files)
        | Throw _ => []
        end
      else []).
Proof.
  unfold parseAppManifests, steamappsOf. cbv zeta.
  destruct (existsSync h _); cbn; [|reflexivity].
  destruct (readdir h _) as [files|e]; cbn; [|reflexivity].
  now rewrite scanManifests_contributions.
Qed.

Lemma parseAppManifests_libraryGames (h : Host) (lib : string) :
  parseAppManifests h lib = Ok (libraryGames h lib).
Proof. unfold libraryGames. now rewrite parseAppManifests_eq. Qed.

Lemma scanLibraries_eq (h : Host) (libs : list string) (acc : list SteamGame) :
  scanLibraries h libs acc = Ok (acc ++ flat_map (libraryGames h) libs)%list.
Proof.
  revert acc. induction libs as [|lib libs IH]; intros acc; cbn.
  - now rewrite app_nil_r.
  - rewrite parseAppManifests_libraryGames. cbn. rewrite IH.
    now rewrite <- app_assoc.
Qed.

Lemma firstRegistryHit_truthy (h : Host) (keys : list string) (p : string) :
  firstRegistryHit h keys = Some p -> truthy p = true.
Proof.
  intros H. apply firstRegistryHit_some in H.
  destruct H as (_ & key & _ & _ & (stdout & _ & _ & Hne & _) & _).
  unfold truthy. apply String.eqb_neq in Hne. now rewrite Hne.
Qed.

(** The whole scan on a supported platform with a resolved path. *)
Lemma getInstalledSteamGames_found (h : Host) (steamPath : string) :
  getSteamPath h = Ok (Some steamPath) ->
  exists extras,
    getSteamLibraryPaths h steamPath = Ok (steamPath :: extras) /\
    getInstalledSteamGames h =
    Ok (summary (sort (byName h)
                   (dedupe (flat_map (libraryGames h) (steamPath :: extras))))).
Proof.
  intros G.
  assert (T : truthy steamPath = true).
  { unfold getSteamPath in G.
    destruct (negb (platform h =? "win32")%string); [discriminate|].
    unfold try_catch in G. apply (firstRegistryHit_truthy h registryPaths). congruence. }
  destruct (getSteamLibraryPaths_ok h steamPath) as (extras & L).
  exists extras. split; [assumption|].
  unfold getInstalledSteamGames. rewrite G. cbn [bind]. rewrite T. cbn [negb].
  rewrite L. cbn [bind]. rewrite scanLibraries_eq. reflexivity.
Qed.

Lemma getInstalledSteamGames_cases (h : Host) :
  match getInstalledSteamGames h with
  | Throw e =>
      (platform h <> "win32" /\ e = unsupportedMessage) \/
      (platform h = "win32" /\ getSteamPath h = Ok None /\ e = notFoundMessage)
  | Ok _ => platform h = "win32" /\ exists p, getSteamPath h = Ok (Some p)
  end.
Proof.
  destruct (String.eqb_spec (platform h) "win32") as [W|W].
  - pose proof (getSteamPath_win32 h W) as G.
    destruct (firstRegistryHit h registryPaths) as [p|] eqn:F.
    + destruct (getInstalledSteamGames_found h p G) as (extras & _ & ->). eauto.
    + unfold getInstalledSteamGames. rewrite G. cbn. right. auto.
  - pose proof (getSteamPath_other h W) as G.
    unfold getInstalledSteamGames. rewrite G. cbn. left. auto.
Qed.

(** ** Formatters *)

Lemma pow_1024 (i : Z) : 0 <= i -> 1024 ^ i = 2 ^ (10 * i).
Proof. intros H. now rewrite Z.pow_mul_r by lia. Qed.

Lemma log1024_unique (bytes i : Z) :
  0 <= i -> 1024 ^ i <= bytes < 1024 ^ (i + 1) -> log1024 bytes = i.
Proof.
  intros Hi [Hlo Hhi]. unfold log1024.
  rewrite pow_1024 in Hlo by lia. rewrite pow_1024 in Hhi by lia.
  assert (0 < bytes).
  { eapply Z.lt_le_trans; [|exact Hlo]. apply Z.pow_pos_nonneg; lia. }
  apply Z.log2_le_pow2 in Hlo; [|assumption].
  apply Z.log2_lt_pow2 in Hhi; [|assumption].
  symmetry. apply (Z.div_unique _ _ _ (Z.log2 bytes - 10 * i)); lia.
Qed.

Lemma formatFileSize_eq (bytes i : Z) :
  0 <= i -> 1024 ^ i <= bytes < 1024 ^ (i + 1) ->
  formatFileSize bytes =
  showHundredths (roundDiv (bytes * 100) (1024 ^ i)) ++ " " ++ unitAt i.
Proof.
  intros Hi Hb. unfold formatFileSize.
  assert (0 < bytes).
  { eapply Z.lt_le_trans; [|exact (proj1 Hb)]. apply Z.pow_pos_nonneg; lia. }
  destruct (Z.eqb_spec bytes 0); [lia|].
  destruct (Z.ltb_spec bytes 0); [lia|].
  cbv zeta. now rewrite (log1024_unique bytes i).
Qed.

Lemma unitAt_in_table (i : Z) :
  0 <= i <= 4 -> nth_error sizes (Z.to_nat i) = Some (unitAt i).
Proof.
  intros H.
  assert (C : i = 0 \/ i = 1 \/ i = 2 \/ i = 3 \/ i = 4) by lia.
  destruct C as [->|[->|[->|[->| ->]]]]; reflexivity.
Qed.

Lemma unitAt_beyond_table (i : Z) : 5 <= i -> unitAt i = "undefined".
Proof.
  intros H. unfold unitAt. destruct (Z.ltb_spec i 0); [reflexivity|].
  apply nth_overflow. cbn. lia.
Qed.

Lemma log1024_bounds (bytes : Z) :
  1 <= bytes ->
  0 <= log1024 bytes /\
  1024 ^ log1024 bytes <= bytes < 1024 ^ (log1024 bytes + 1).
Proof.
  intros H. unfold log1024.
  pose proof (Z.log2_nonneg bytes) as L0.
  destruct (Z.log2_spec bytes ltac:(lia)) as [Lo Hi].
  pose proof (Z.div_mod (Z.log2 bytes) 10 ltac:(lia)) as DM.
  pose proof (Z.mod_pos_bound (Z.log2 bytes) 10 ltac:(lia)) as MB.
  assert (I0 : 0 <= Z.log2 bytes / 10) by (apply Z.div_pos; lia).
  split; [assumption|].
  rewrite !pow_1024 by lia. split.
  - eapply Z.le_trans; [|exact Lo]. apply Z.pow_le_mono_r; lia.
  - eapply Z.lt_le_trans; [exact Hi|]. apply Z.pow_le_mono_r; lia.
Qed.

Lemma formatFileSize_endsWith (bytes i : Z) :
  0 <= i -> 1024 ^ i <= bytes < 1024 ^ (i + 1) ->
  Str.endsWith (formatFileSize bytes) (unitAt i) = true.
Proof.
  intros Hi Hb. rewrite (formatFileSize_eq bytes i Hi Hb).
  rewrite <- append_assoc. apply endsWith_append.
Qed.

Lemma endsWith_undefined (shown : string) :
  Str.endsWith (shown ++ " " ++ "undefined") " undefined" = true /\
  forall u, In u sizes -> Str.endsWith (shown ++ " " ++ "undefined") (" " ++ u) = false.
Proof.
  split.
  - change (" " ++ "undefined") with " undefined". apply endsWith_append.
  - intros u Hu. unfold Str.endsWith. rewrite rev_append.
    destruct Hu as [<-|[<-|[<-|[<-|[<-|[]]]]]]; reflexivity.
Qed.

(** C8, as the code has it.  For every byte count [bytes] from 1 to below
    2^46, the range in which the source's floating-point logarithm and
    scaling agree with the exact values, there is the index
    [i = floor(log_1024 bytes)], which is at most 4, and the text is the
    value scaled by [1024^i], rounded to hundredths, a space and the entry
    of the unit table at index [i], one of the five units.  The index is
    not clamped: from [1024^5] on it is outside the table and the text ends
    in [undefined], not in a unit.  The three examples hold. *)
Theorem formatFileSize_unit :
  (forall bytes, 1 <= bytes < 2 ^ 46 ->
   exists i,
     0 <= i <= 4 /\ 1024 ^ i <= bytes < 1024 ^ (i + 1) /\
     formatFileSize bytes =
       showHundredths (roundDiv (bytes * 100) (1024 ^ i)) ++ " " ++ unitAt i /\
     Str.endsWith (formatFileSize bytes) (unitAt i) = true /\
     nth_error sizes (Z.to_nat i) = Some (unitAt i) /\
     In (unitAt i) sizes) /\
  (forall bytes, 1024 ^ 5 <= bytes ->
     Str.endsWith (formatFileSize bytes) " undefined" = true /\
     forall u, In u sizes -> Str.endsWith (formatFileSize bytes) (" " ++ u) = false) /\
  formatFileSize 0 = "0 B" /\
  formatFileSize 1024 = "1 KB" /\
  formatFileSize 1536 = "1.5 KB".
Proof.
  split; [|split; [|repeat split; reflexivity]].
  - intros bytes [H1 H46]. destruct (log1024_bounds bytes H1) as [Hi Hb].
    exists (log1024 bytes). set (i := log1024 bytes) in *.
    assert (i <= 4).
    { destruct (Z.le_gt_cases i 4) as [|G]; [assumption|]. exfalso.
      assert (1024 ^ 5 <= 1024 ^ i) by (apply Z.pow_le_mono_r; lia).
      assert (2 ^ 46 <= 1024 ^ 5) by (vm_compute; discriminate). lia. }
    split; [lia|]. split; [assumption|].
    split; [now apply formatFileSize_eq|].
    split; [now apply formatFileSize_endsWith|].
    pose proof (unitAt_in_table i ltac:(lia)) as N.
    split; [assumption|]. eapply nth_error_In, N.
  - intros bytes Hs.
    assert (H1 : 1 <= bytes).
    { assert (1 <= 1024 ^ 5) by (vm_compute; discriminate). lia. }
    destruct (log1024_bounds bytes H1) as [Hi Hb].
    assert (5 <= log1024 bytes).
    { destruct (Z.le_gt_cases 5 (log1024 bytes)) as [|G]; [assumption|]. exfalso.
      assert (1024 ^ (log1024 bytes + 1) <= 1024 ^ 5)
        by (apply Z.pow_le_mono_r; lia). lia. }
    rewrite (formatFileSize_eq bytes (log1024 bytes) Hi Hb).
    rewrite (unitAt_beyond_table _ H). apply endsWith_undefined.
Qed.

Lemma formatFileSize_unit_witness :
  exists i,
    1024 ^ i <= 12000000000 < 1024 ^ (i + 1) /\
    formatFileSize 12000000000 =
      showHundredths (roundDiv (12000000000 * 100) (1024 ^ i)) ++ " " ++ unitAt i /\
    In (unitAt i) sizes.
Proof.
  destruct (proj1 formatFileSize_unit 12000000000) as (i & _ & B & E & _ & _ & I).
  - split; [lia|]. vm_compute. reflexivity.
  - exists i. split; [exact B|]. split; [exact E|exact I].
Defined.

(** C8 as stated fails: two petabytes select index 5, which is not clamped,
    and the text ends in none of the five units. *)
Lemma formatFileSize_not_clamped :
  0 <= 2000000000000000 /\
  formatFileSize 2000000000000000 = "1.78 undefined" /\
  forall u, In u sizes -> Str.endsWith (formatFileSize 2000000000000000) u = false.
Proof.
  split; [lia|]. split; [reflexivity|].
  intros u [<-|[<-|[<-|[<-|[<-|[]]]]]]; reflexivity.
Qed.

Lemma daysSince_bounds (nowMs timestamp : Z) :
  daysSince nowMs timestamp * 86400000 <= nowMs - 1000 * timestamp
    < (daysSince nowMs timestamp + 1) * 86400000.
Proof.
  unfold daysSince. change (1000 * (24 * 60 * 60)) with 86400000.
  pose proof (Z.div_mod (nowMs - 1000 * timestamp) 86400000 ltac:(lia)).
  pose proof (Z.mod_pos_bound (nowMs - 1000 * timestamp) 86400000 ltac:(lia)).
  lia.
Qed.

(** C9.  For a timestamp not later than now there is the number [d >= 0]
    of whole days elapsed, and the text is: Today for 0, Yesterday for 1,
    [d] days ago for 2 to 6, [floor(d/7)] weeks ago for 7 to 29,
    [floor(d/30)] months ago from 30 on; 40 days give 1 months ago. *)
Theorem formatLastUpdated_ranges (nowMs timestamp : Z) :
  1000 * timestamp <= nowMs ->
  exists d,
    0 <= d /\
    d * 86400000 <= nowMs - 1000 * timestamp < (d + 1) * 86400000 /\
    (d = 0 -> formatLastUpdated nowMs timestamp = "Today") /\
    (d = 1 -> formatLastUpdated nowMs timestamp = "Yesterday") /\
    (2 <= d <= 6 -> formatLastUpdated nowMs timestamp = Str.ofZ d ++ " days ago") /\
    (7 <= d <= 29 ->
       formatLastUpdated nowMs timestamp = Str.ofZ (d / 7) ++ " weeks ago") /\
    (30 <= d ->
       formatLastUpdated nowMs timestamp = Str.ofZ (d / 30) ++ " months ago") /\
    (d = 40 -> formatLastUpdated nowMs timestamp = "1 months ago").
Proof.
  intros Hpast. pose proof (daysSince_bounds nowMs timestamp) as Hd.
  exists (daysSince nowMs timestamp). unfold formatLastUpdated. cbv zeta.
  set (d := daysSince nowMs timestamp) in *.
  split; [lia|]. split; [exact Hd|].
  split; [intros ->; reflexivity|].
  split; [intros ->; reflexivity|].
  split; [|split; [|split]].
  - intros H.
    destruct (Z.eqb_spec d 0); [lia|]. destruct (Z.eqb_spec d 1); [lia|].
    destruct (Z.ltb_spec d 7); [reflexivity|lia].
  - intros H.
    destruct (Z.eqb_spec d 0); [lia|]. destruct (Z.eqb_spec d 1); [lia|].
    destruct (Z.ltb_spec d 7); [lia|].
    destruct (Z.ltb_spec d 30); [reflexivity|lia].
  - intros H.
    destruct (Z.eqb_spec d 0); [lia|]. destruct (Z.eqb_spec d 1); [lia|].
    destruct (Z.ltb_spec d 7); [lia|].
    destruct (Z.ltb_spec d 30); [lia|reflexivity].
  - intros ->. reflexivity.
Qed.

Lemma formatLastUpdated_ranges_witness :
  formatLastUpdated 1700000000000 1696544000 = "1 months ago" /\
  formatLastUpdated 1700000000000 1699136000 = "1 weeks ago".
Proof.
  split.
  - destruct (formatLastUpdated_ranges 1700000000000 1696544000)
      as (d & _ & B & _ & _ & _ & _ & _ & M); [lia|].
    apply M. lia.
  - destruct (formatLastUpdated_ranges 1700000000000 1699136000)
      as (d & _ & B & _ & _ & _ & W & _); [lia|].
    assert (d = 10) as -> by lia. apply W. lia.
Defined.

(** ** Regular expressions: matching at a position *)

Section StarLemmas.
Context {R : Type}.

(** What a successful greedy run took satisfies the class. *)
Lemma star_bt_sound (p : ascii -> bool) (s : string) :
  forall (k : string -> string -> option R) (r : R),
    Regex.star_bt p k s = Some r ->
    exists taken rest,
      s = taken ++ rest /\ Str.all p taken = true /\ k taken rest = Some r.
Proof.
  induction s as [|x s IH]; intros k r; cbn.
  - intros H. exists "", "". auto.
  - destruct (p x) eqn:P.
    + destruct (Regex.star_bt p (fun taken rest => k (String x taken) rest) s)
        as [r'|] eqn:E.
      * intros [= <-]. apply IH in E. destruct E as (t & rest & -> & A & K).
        exists (String x t), rest. cbn. rewrite P, A. auto.
      * intros H. exists "", (String x s). auto.
    + intros H. exists "", (String x s). auto.
Qed.

(** The longest run is tried first: when the continuation accepts it, that
    is the result. *)
Lemma star_bt_longest (p : ascii -> bool) (taken rest : string) :
  forall (k : string -> string -> option R) (r : R),
    Str.all p taken = true ->
    k taken rest = Some r ->
    match rest with String x _ => p x = false | EmptyString => True end ->
    Regex.star_bt p k (taken ++ rest) = Some r.
Proof.
  induction taken as [|x t IH]; intros k r A K D; cbn.
  - destruct rest as [|y rest]; cbn; [assumption|]. now rewrite D.
  - cbn in A. apply andb_true_iff in A as [Px At]. rewrite Px.
    now rewrite (IH (fun taken rest => k (String x taken) rest) r At K D).
Qed.

Lemma plus_bt_sound (p : ascii -> bool) (s : string)
      (k : string -> string -> option R) (r : R) :
  Regex.plus_bt p k s = Some r ->
  exists taken rest,
    s = taken ++ rest /\ taken <> "" /\ Str.all p taken = true /\
    k taken rest = Some r.
Proof.
  unfold Regex.plus_bt. destruct s as [|x s]; [discriminate|].
  destruct (p x) eqn:P; [|discriminate].
  intros H. apply star_bt_sound in H. destruct H as (t & rest & -> & A & K).
  exists (String x t), rest. cbn. rewrite P, A. repeat split; auto. discriminate.
Qed.

Lemma plus_bt_longest (p : ascii -> bool) (taken rest : string)
      (k : string -> string -> option R) (r : R) :
  taken <> "" ->
  Str.all p taken = true ->
  k taken rest = Some r ->
  match rest with String x _ => p x = false | EmptyString => True end ->
  Regex.plus_bt p k (taken ++ rest) = Some r.
Proof.
  intros N A K D. destruct taken as [|x t]; [congruence|].
  cbn in A. apply andb_true_iff in A as [Px At]. cbn. rewrite Px.
  now apply star_bt_longest.
Qed.

End StarLemmas.

Lemma inClass_dq (c : Regex.cclass) : Regex.inClass c Str.dq = false.
Proof. destruct c; reflexivity. Qed.

Lemma digit_notQuote (x : ascii) : Str.isDigit x = true -> Str.notQuote x = true.
Proof.
  unfold Str.notQuote. destruct (Ascii.eqb_spec x Str.dq) as [->|]; [|reflexivity].
  discriminate.
Qed.

Lemma quoted_append (key s : string) :
  Str.quoted key ++ s = String Str.dq (key ++ String Str.dq s).
Proof. unfold Str.quoted. cbn. now rewrite append_assoc. Qed.

(** The field pattern matches at the start of a text exactly when the
    text begins with an occurrence, and captures its value. *)
Lemma match_here_field (key : string) (c : Regex.cclass) (s : string)
      (caps : list string) (rest : string) :
  Regex.match_here (Regex.field key c) s = Some (caps, rest) <->
  exists v, caps = [v] /\ field_at key c s v rest.
Proof.
  unfold Regex.field, field_at. cbn [Regex.match_here]. split.
  - destruct (Str.strip_prefix (Str.quoted key) s) as [s1|] eqn:P; [|discriminate].
    apply strip_prefix_some in P. subst s.
    intros H. apply plus_bt_sound in H.
    destruct H as (ws & s2 & -> & Nws & Aws & H).
    destruct (Str.strip_prefix (String Str.dq "") s2) as [s3|] eqn:Q; [|discriminate].
    apply strip_prefix_some in Q. subst s2.
    apply plus_bt_sound in H. destruct H as (v & s4 & -> & Nv & Av & H).
    destruct (Str.strip_prefix (String Str.dq "") s4) as [s5|] eqn:Q; [|discriminate].
    apply strip_prefix_some in Q. subst s4.
    injection H as <- <-. exists v. split; [reflexivity|].
    exists ws. cbn. repeat split; auto.
  - intros (v & -> & ws & -> & Nws & Aws & Nv & Av).
    rewrite strip_prefix_append.
    apply plus_bt_longest; [exact Nws|exact Aws| |reflexivity].
    cbn [Str.strip_prefix]. rewrite Ascii.eqb_refl.
    rewrite (plus_bt_longest (Regex.inClass c) v (String Str.dq rest) _ ([v], rest));
      [reflexivity|exact Nv|exact Av| |apply inClass_dq].
    cbn [Str.strip_prefix Regex.match_here]. now rewrite Ascii.eqb_refl.
Qed.

Lemma field_at_functional (key : string) (c : Regex.cclass) (s v v' rest rest' : string) :
  field_at key c s v rest -> field_at key c s v' rest' -> v = v' /\ rest = rest'.
Proof.
  intros H H'.
  assert (E : Regex.match_here (Regex.field key c) s = Some ([v], rest))
    by (apply match_here_field; eauto).
  assert (E' : Regex.match_here (Regex.field key c) s = Some ([v'], rest'))
    by (apply match_here_field; eauto).
  rewrite E in E'. now injection E' as -> ->.
Qed.

Lemma field_at_digit_notQuote (key s v rest : string) :
  field_at key Regex.Digit s v rest -> field_at key Regex.NotQuote s v rest.
Proof.
  intros (ws & -> & Nws & Aws & Nv & Av). exists ws. repeat split; auto.
  cbn in *. eapply all_weaken; [apply digit_notQuote|exact Av].
Qed.

(** A pair whose value is not a run of digits is no occurrence of the
    numeric pattern. *)
Lemma field_at_non_numeric (key s v rest : string) :
  field_at key Regex.NotQuote s v rest ->
  Str.all Str.isDigit v = false ->
  forall v' rest', ~ field_at key Regex.Digit s v' rest'.
Proof.
  intros H N v' rest' H'.
  pose proof H' as (ws & _ & _ & _ & _ & Av). cbn in Av.
  apply field_at_digit_notQuote in H'.
  destruct (field_at_functional _ _ _ _ _ _ _ H H') as [-> _]. congruence.
Qed.

(** The file-name pattern on [appmanifest_<digits>.acf]. *)
Lemma match_here_manifestName (digits : string) :
  digitRun digits ->
  Regex.match_here Regex.manifestName (manifestFileName digits) = Some ([digits], "").
Proof.
  intros [N A]. unfold Regex.manifestName, manifestFileName.
  cbn [Regex.match_here]. rewrite strip_prefix_append.
  apply plus_bt_longest; auto.
Qed.

(** ** Regular expressions: the leftmost match *)

Lemma exec_none (re : Regex.regex) (s : string) :
  Regex.exec re s = None <->
  forall before suffix, s = before ++ suffix -> Regex.match_here re suffix = None.
Proof.
  induction s as [|x s IH].
  - cbn. unfold Regex.exec_at. split.
    + intros H before suffix E. destruct before; [|discriminate]. cbn in E. subst.
      destruct (Regex.match_here re "") as [[caps rest]|]; [discriminate|reflexivity].
    + intros H. now rewrite (H "" "" eq_refl).
  - cbn [Regex.exec]. unfold Regex.exec_at at 1. split.
    + destruct (Regex.match_here re (String x s)) as [[caps rest]|] eqn:M; [discriminate|].
      intros H before suffix E. destruct before as [|y before]; cbn in E.
      * now subst.
      * injection E as -> ->. eapply IH; eauto.
    + intros H. rewrite (H "" (String x s) eq_refl).
      apply IH. intros before suffix ->. now apply (H (String x before) suffix).
Qed.

Lemma exec_leftmost (re : Regex.regex) (before suffix : string)
      (caps : list string) (rest : string) :
  Regex.match_here re suffix = Some (caps, rest) ->
  (forall before' suffix', before ++ suffix = before' ++ suffix' ->
     (String.length before' < String.length before)%nat ->
     Regex.match_here re suffix' = None) ->
  Regex.group1 (Regex.exec re (before ++ suffix)) = Regex.group1 (Some ("" :: caps)).
Proof.
  intros M. induction before as [|x before IH]; intros E.
  - cbn [append]. destruct suffix; cbn [Regex.exec]; unfold Regex.exec_at; now rewrite M.
  - cbn [append Regex.exec]. unfold Regex.exec_at at 1.
    rewrite (E "" (String x (before ++ suffix))); [|reflexivity|cbn; lia].
    apply IH. intros before' suffix' H L.
    apply (E (String x before') suffix'); [cbn; now rewrite H|cbn; lia].
Qed.

Lemma exec_some (re : Regex.regex) (s : string) (m : list string) :
  Regex.exec re s = Some m ->
  exists before suffix caps rest,
    s = before ++ suffix /\
    Regex.match_here re suffix = Some (caps, rest) /\
    Regex.group1 (Some m) = Regex.group1 (Some ("" :: caps)) /\
    forall before' suffix', s = before' ++ suffix' ->
      (String.length before' < String.length before)%nat ->
      Regex.match_here re suffix' = None.
Proof.
  revert m. induction s as [|x s IH]; intros m.
  - cbn. unfold Regex.exec_at.
    destruct (Regex.match_here re "") as [[caps rest]|] eqn:M; [|discriminate].
    intros [= <-]. exists "", "", caps, rest. repeat split; auto.
    cbn. intros ? ? _ L. lia.
  - cbn [Regex.exec]. unfold Regex.exec_at at 1.
    destruct (Regex.match_here re (String x s)) as [[caps rest]|] eqn:M.
    + intros [= <-]. exists "", (String x s), caps, rest. repeat split; auto.
      cbn. intros ? ? _ L. lia.
    + intros H. apply IH in H.
      destruct H as (before & suffix & caps & rest & -> & M' & G & F).
      exists (String x before), suffix, caps, rest. repeat split; auto.
      intros before' suffix' E L. destruct before' as [|y before']; cbn in E.
      * now subst.
      * injection E as -> E. apply (F before' suffix' E). cbn in L. lia.
Qed.

(** The value a field pattern yields is the value of its first
    occurrence in the text. *)
Lemma fieldValue_first (key : string) (c : Regex.cclass) (content v : string) :
  fieldValue key c content = Some v <-> first_occurrence key c content v.
Proof.
  unfold fieldValue, first_occurrence, occurs. split.
  - destruct (Regex.exec (Regex.field key c) content) as [m|] eqn:E; [|discriminate].
    intros G. apply exec_some in E.
    destruct E as (before & suffix & caps & rest & -> & M & G' & F).
    apply match_here_field in M. destruct M as (v0 & -> & A).
    rewrite G' in G. cbn in G. injection G as ->.
    exists before. split; [eauto|].
    intros before' v' (suffix' & rest' & E' & A').
    destruct (Nat.le_gt_cases (String.length before) (String.length before'))
      as [|L]; [assumption|].
    assert (M' : Regex.match_here (Regex.field key c) suffix' = Some ([v'], rest'))
      by (apply match_here_field; eauto).
    rewrite (F before' suffix' E' L) in M'. discriminate.
  - intros (before & (suffix & rest & -> & A) & F).
    rewrite (exec_leftmost _ before suffix [v] rest); [reflexivity| |].
    + apply match_here_field. eauto.
    + intros before' suffix' E L.
      destruct (Regex.match_here (Regex.field key c) suffix') as [[caps' rest']|] eqn:M;
        [|reflexivity].
      apply match_here_field in M. destruct M as (v' & _ & A').
      assert (String.length before <= String.length before')%nat; [|lia].
      apply (F before' v'). eauto.
Qed.

Lemma fieldValue_absent (key : string) (c : Regex.cclass) (content : string) :
  fieldValue key c content = None <-> absent key c content.
Proof.
  unfold absent. split.
  - intros N before v O.
    assert (exists v', fieldValue key c content = Some v') as [v' E]; [|congruence].
    clear N. unfold fieldValue.
    destruct (Regex.exec (Regex.field key c) content) as [m|] eqn:E.
    + apply exec_some in E.
      destruct E as (b & sfx & caps & rest & _ & M & G & _).
      apply match_here_field in M. destruct M as (v0 & -> & _).
      rewrite G. cbn. eauto.
    + destruct O as (suffix & rest & -> & A).
      rewrite exec_none in E. specialize (E before suffix eq_refl).
      assert (M : Regex.match_here (Regex.field key c) suffix = Some ([v], rest))
        by (apply match_here_field; eauto).
      congruence.
  - intros A. destruct (fieldValue key c content) as [v|] eqn:E; [|reflexivity].
    apply fieldValue_first in E. destruct E as (before & O & _).
    now apply A in O.
Qed.

Lemma fieldValue_present (key : string) (c : Regex.cclass) (content before v : string) :
  occurs key c content before v -> exists v', first_occurrence key c content v'.
Proof.
  intros O. destruct (fieldValue key c content) as [v'|] eqn:E.
  - exists v'. now apply fieldValue_first.
  - apply fieldValue_absent in E. now apply E in O.
Qed.

Lemma first_occurrence_functional (key : string) (c : Regex.cclass)
      (content v v' : string) :
  first_occurrence key c content v -> first_occurrence key c content v' -> v = v'.
Proof.
  intros H H'. apply fieldValue_first in H, H'. congruence.
Qed.

Lemma exec_manifestName (digits : string) :
  digitRun digits ->
  Regex.group1 (Regex.exec Regex.manifestName (manifestFileName digits)) = Some digits.
Proof.
  intros D. apply match_here_manifestName in D.
  unfold manifestFileName in *. cbn [append Regex.exec]. unfold Regex.exec_at.
  cbn [append] in D. now rewrite D.
Qed.

Lemma isManifestFile_manifestFileName (digits : string) :
  isManifestFile (manifestFileName digits) = true.
Proof.
  unfold isManifestFile, manifestFileName.
  rewrite startsWith_append. rewrite <- append_assoc. now rewrite endsWith_append.
Qed.

(** ** Manifest scanner: one file *)

Lemma reserved_test (id : Z) :
  (id =? 228980) || (id =? 7) = true <-> reserved id.
Proof.
  unfold reserved. rewrite orb_true_iff, !Z.eqb_eq. reflexivity.
Qed.

(** When and what a manifest file contributes. *)
Lemma scanManifest_some (h : Host) (lib file : string) (g : SteamGame) :
  scanManifest h lib file = Some g <->
  exists content digits nameValue installDirValue,
    existsSync h (manifestPathOf h lib file) = true /\
    readFile h (manifestPathOf h lib file) = Ok content /\
    Regex.group1 (Regex.exec Regex.manifestName file) = Some digits /\
    ~ reserved (Str.parseInt digits) /\
    fieldValue "name" Regex.NotQuote content = Some nameValue /\
    fieldValue "installdir" Regex.NotQuote content = Some installDirValue /\
    g = gameRecord h lib (Str.parseInt digits) content nameValue installDirValue.
Proof.
  unfold scanManifest, readManifest, manifestPathOf, steamappsOf, gameRecord, fieldValue.
  cbv zeta. split.
  - destruct (existsSync h _) eqn:X; cbn [negb]; [|discriminate].
    destruct (readFile h _) as [content|e] eqn:F; cbn [bind try_catch]; [|discriminate].
    destruct (Regex.group1 (Regex.exec Regex.manifestName file)) as [digits|] eqn:D;
      [|discriminate].
    destruct ((Str.parseInt digits =? 228980) || (Str.parseInt digits =? 7)) eqn:Rv;
      [discriminate|].
    destruct (Regex.group1 (Regex.exec (Regex.field "name" Regex.NotQuote) content))
      as [nameValue|] eqn:N; [|discriminate].
    destruct (Regex.group1 (Regex.exec (Regex.field "installdir" Regex.NotQuote) content))
      as [installDirValue|] eqn:I; [|discriminate].
    intros [= <-]. exists content, digits, nameValue, installDirValue.
    repeat split; auto.
    intros Hr. apply reserved_test in Hr. congruence.
  - intros (content & digits & nameValue & installDirValue
            & X & F & D & Rv & N & I & ->).
    rewrite X, F. cbn [negb bind try_catch]. rewrite D.
    destruct ((Str.parseInt digits =? 228980) || (Str.parseInt digits =? 7)) eqn:T.
    + apply reserved_test in T. contradiction.
    + now rewrite N, I.
Qed.

Lemma scanManifest_missing_field (h : Host) (lib file content : string) :
  readFile h (manifestPathOf h lib file) = Ok content ->
  fieldValue "name" Regex.NotQuote content = None \/
  fieldValue "installdir" Regex.NotQuote content = None ->
  scanManifest h lib file = None.
Proof.
  intros F M. destruct (scanManifest h lib file) as [g|] eqn:E; [|reflexivity].
  apply scanManifest_some in E.
  destruct E as (content' & digits & nv & iv & _ & F' & _ & _ & N & I & _).
  rewrite F in F'. injection F' as <-. destruct M; congruence.
Qed.

Lemma contribution_in (h : Host) (lib file : string) (g : SteamGame) :
  In g (contribution h lib file) <-> scanManifest h lib file = Some g.
Proof.
  unfold contribution. destruct (scanManifest h lib file) as [g'|]; cbn.
  - split; [intros [->|[]]; reflexivity|intros [= ->]; now left].
  - split; [intros []|discriminate].
Qed.

Lemma libraryGames_in (h : Host) (lib : string) (g : SteamGame) :
  In g (libraryGames h lib) ->
  exists file, scanManifest h lib file = Some g.
Proof.
  unfold libraryGames. rewrite parseAppManifests_eq.
  destruct (existsSync h _); [|intros []].
  destruct (readdir h _) as [files|e]; [|intros []].
  intros H. apply in_flat_map in H. destruct H as (file & _ & H).
  exists file. now apply contribution_in.
Qed.

Lemma libraryGames_not_reserved (h : Host) (lib : string) :
  Forall (fun g => ~ reserved (appid g)) (libraryGames h lib).
Proof.
  apply Forall_forall. intros g H. apply libraryGames_in in H.
  destruct H as (file & H). apply scanManifest_some in H.
  destruct H as (content & digits & nv & iv & _ & _ & _ & Rv & _ & _ & ->).
  exact Rv.
Qed.

Lemma occurs_fieldValue (key : string) (c : Regex.cclass) (content before v : string) :
  occurs key c content before v -> exists v', fieldValue key c content = Some v'.
Proof.
  intros O. apply fieldValue_present in O. destruct O as (v' & F).
  exists v'. now apply fieldValue_first.
Qed.

(** C5, as the code has it.  A manifest file named appmanifest_<digits>.acf
    whose number is not one of the two reserved identifiers and is at most
    2^53, so that the source's number holds it exactly, present and
    readable, whose text contains a name pair and an installdir pair,
    contributes exactly one application: its id is the number written by
    the digit run, and its install directory is
    libraryPath/steamapps/common/<value of the first installdir pair>. *)
Theorem scanner_yields_one (h : Host) (lib digits content b1 v1 b2 v2 : string) :
  digitRun digits ->
  ~ reserved (Str.parseInt digits) ->
  exactNumber (Str.parseInt digits) ->
  existsSync h (manifestPathOf h lib (manifestFileName digits)) = true ->
  readFile h (manifestPathOf h lib (manifestFileName digits)) = Ok content ->
  occurs "name" Regex.NotQuote content b1 v1 ->
  occurs "installdir" Regex.NotQuote content b2 v2 ->
  isManifestFile (manifestFileName digits) = true /\
  exists g installDirValue,
    contribution h lib (manifestFileName digits) = [g] /\
    appid g = Str.parseInt digits /\
    first_occurrence "installdir" Regex.NotQuote content installDirValue /\
    installDir g = join h [lib; "steamapps"; "common"; installDirValue].
Proof.
  intros D Rv _ X F O1 O2. split; [apply isManifestFile_manifestFileName|].
  destruct (occurs_fieldValue _ _ _ _ _ O1) as (nv & N).
  destruct (occurs_fieldValue _ _ _ _ _ O2) as (iv & I).
  exists (gameRecord h lib (Str.parseInt digits) content nv iv), iv.
  split; [|split; [reflexivity|split; [now apply fieldValue_first|reflexivity]]].
  unfold contribution.
  assert (S : scanManifest h lib (manifestFileName digits) =
              Some (gameRecord h lib (Str.parseInt digits) content nv iv)).
  { apply scanManifest_some. exists content, digits, nv, iv.
    repeat split; auto. now apply exec_manifestName. }
  now rewrite S.
Qed.

Lemma demo_occurs (key : string) (c : Regex.cclass) (content v : string) :
  fieldValue key c content = Some v -> exists before, occurs key c content before v.
Proof.
  intros F. apply fieldValue_first in F. destruct F as (before & O & _). eauto.
Qed.

Lemma scanner_yields_one_witness :
  exists g installDirValue,
    contribution Demo.host "D:\\Games" (manifestFileName "400") = [g] /\
    appid g = 400 /\
    first_occurrence "installdir" Regex.NotQuote
      (Demo.manifest "Portal" "Portal" "4000000000") installDirValue /\
    installDir g = "D:\\Games\steamapps\common\Portal".
Proof.
  destruct (demo_occurs "name" Regex.NotQuote
              (Demo.manifest "Portal" "Portal" "4000000000") "Portal" eq_refl)
    as (b1 & O1).
  destruct (demo_occurs "installdir" Regex.NotQuote
              (Demo.manifest "Portal" "Portal" "4000000000") "Portal" eq_refl)
    as (b2 & O2).
  destruct (scanner_yields_one Demo.host "D:\\Games" "400"
              (Demo.manifest "Portal" "Portal" "4000000000") b1 "Portal" b2 "Portal")
    as (_ & g & iv & C & A & FO & ID).
  - split; [discriminate|reflexivity].
  - intros [H|H]; discriminate.
  - vm_compute. discriminate.
  - reflexivity.
  - reflexivity.
  - exact O1.
  - exact O2.
  - exists g, iv. repeat split; auto.
    rewrite ID.
    assert (iv = "Portal") as ->; [|reflexivity].
    apply fieldValue_first in FO. vm_compute in FO. congruence.
Defined.

(** C5 as stated fails: appmanifest_7.acf has both required pairs and the
    scanner yields no application for it. *)
Lemma reserved_manifest_yields_nothing :
  digitRun "7" /\
  readFile Demo.host (manifestPathOf Demo.host "C:\Steam" (manifestFileName "7"))
    = Ok (Demo.manifest "Steam Client" "Steam" "1") /\
  first_occurrence "name" Regex.NotQuote
    (Demo.manifest "Steam Client" "Steam" "1") "Steam Client" /\
  first_occurrence "installdir" Regex.NotQuote
    (Demo.manifest "Steam Client" "Steam" "1") "Steam" /\
  contribution Demo.host "C:\Steam" (manifestFileName "7") = [] /\
  exists found,
    parseAppManifests Demo.host "C:\Steam" = Ok found /\ map appid found = [570; 620].
Proof.
  split; [split; [discriminate|reflexivity]|].
  split; [reflexivity|].
  split; [now apply fieldValue_first|].
  split; [now apply fieldValue_first|].
  split; [reflexivity|].
  eexists. split; reflexivity.
Qed.

(** C6.  A readable manifest whose text lacks a name pair or an installdir
    pair contributes nothing, whatever else it contains.  A manifest with
    both, a well-formed name and a number that is not reserved contributes
    one record whatever its optional fields: with no numeric SizeOnDisk
    pair the size is 0, with no numeric LastUpdated or StateFlags pair the
    field is unset.  A pair whose value is not a run of digits is no
    occurrence of the numeric pattern, so it counts as absent. *)
Theorem required_and_optional_fields (h : Host) (lib file content : string) :
  readFile h (manifestPathOf h lib file) = Ok content ->
  (absent "name" Regex.NotQuote content \/ absent "installdir" Regex.NotQuote content ->
   contribution h lib file = []) /\
  (forall digits b1 v1 b2 v2,
     file = manifestFileName digits ->
     digitRun digits ->
     ~ reserved (Str.parseInt digits) ->
     existsSync h (manifestPathOf h lib file) = true ->
     occurs "name" Regex.NotQuote content b1 v1 ->
     occurs "installdir" Regex.NotQuote content b2 v2 ->
     exists g,
       contribution h lib file = [g] /\
       (absent "SizeOnDisk" Regex.Digit content -> sizeOnDisk g = 0) /\
       (absent "LastUpdated" Regex.Digit content -> lastUpdated g = None) /\
       (absent "StateFlags" Regex.Digit content -> state g = None)) /\
  (forall key s v rest,
     field_at key Regex.NotQuote s v rest ->
     Str.all Str.isDigit v = false ->
     forall v' rest', ~ field_at key Regex.Digit s v' rest').
Proof.
  intros F. split; [|split].
  - intros M. unfold contribution.
    rewrite (scanManifest_missing_field h lib file content F); [reflexivity|].
    destruct M as [M|M]; [left|right]; now apply fieldValue_absent.
  - intros digits b1 v1 b2 v2 -> D Rv X O1 O2.
    destruct (occurs_fieldValue _ _ _ _ _ O1) as (nv & N).
    destruct (occurs_fieldValue _ _ _ _ _ O2) as (iv & I).
    exists (gameRecord h lib (Str.parseInt digits) content nv iv).
    split.
    + unfold contribution.
      assert (S : scanManifest h lib (manifestFileName digits) =
                  Some (gameRecord h lib (Str.parseInt digits) content nv iv)).
      { apply scanManifest_some. exists content, digits, nv, iv.
        repeat split; auto. now apply exec_manifestName. }
      now rewrite S.
    + cbn [gameRecord sizeOnDisk lastUpdated state].
      repeat split; intros A; apply fieldValue_absent in A; now rewrite A.
  - apply field_at_non_numeric.
Qed.

Lemma required_and_optional_fields_witness :
  contribution Demo.host "C:\Steam" "appmanifest_440.acf" = [] /\
  exists g,
    contribution Demo.host "C:\Steam" "appmanifest_620.acf" = [g] /\
    sizeOnDisk g = 0 /\ lastUpdated g = None /\ state g = None.
Proof.
  split.
  - apply (required_and_optional_fields Demo.host "C:\Steam" "appmanifest_440.acf"
             (Demo.kv "name" "Team Fortress 2") eq_refl).
    right. now apply fieldValue_absent.
  - pose (content := Demo.kv "name" "portal 2" ++ Demo.kv "installdir" "Portal 2" ++
                     Demo.kv "SizeOnDisk" "big").
    destruct (demo_occurs "name" Regex.NotQuote content "portal 2" eq_refl) as (b1 & O1).
    destruct (demo_occurs "installdir" Regex.NotQuote content "Portal 2" eq_refl)
      as (b2 & O2).
    destruct (required_and_optional_fields Demo.host "C:\Steam" "appmanifest_620.acf"
                content eq_refl) as (_ & P & _).
    destruct (P "620" b1 "portal 2" b2 "Portal 2") as (g & C & S & L & T).
    + reflexivity.
    + split; [discriminate|reflexivity].
    + intros [H|H]; discriminate.
    + reflexivity.
    + exact O1.
    + exact O2.
    + exists g. split; [exact C|].
      split; [apply S|split; [apply L|apply T]]; now apply fieldValue_absent.
Defined.

(** C10.  Each field of a record the scanner produces comes from the
    first occurrence of that field's pattern in the manifest text: the
    name, the install directory, and, whenever the numeric pattern occurs
    anywhere in the text, the size, the update time and the state flags. *)
Theorem scanner_uses_first_occurrence (h : Host) (lib file content : string)
        (g : SteamGame) :
  readFile h (manifestPathOf h lib file) = Ok content ->
  contribution h lib file = [g] ->
  first_occurrence "name" Regex.NotQuote content (name g) /\
  (exists d, first_occurrence "installdir" Regex.NotQuote content d /\
             installDir g = join h [lib; "steamapps"; "common"; d]) /\
  (forall before v, occurs "SizeOnDisk" Regex.Digit content before v ->
     exists v0, first_occurrence "SizeOnDisk" Regex.Digit content v0 /\
                sizeOnDisk g = Str.parseInt v0) /\
  (forall before v, occurs "LastUpdated" Regex.Digit content before v ->
     exists v0, first_occurrence "LastUpdated" Regex.Digit content v0 /\
                lastUpdated g = Some (Str.parseInt v0)) /\
  (forall before v, occurs "StateFlags" Regex.Digit content before v ->
     exists v0, first_occurrence "StateFlags" Regex.Digit content v0 /\
                state g = Some (Str.parseInt v0)).
Proof.
  intros F C.
  assert (S : scanManifest h lib file = Some g).
  { apply contribution_in. rewrite C. now left. }
  apply scanManifest_some in S.
  destruct S as (content' & digits & nv & iv & _ & F' & _ & _ & N & I & ->).
  rewrite F in F'. injection F' as <-.
  cbn [gameRecord name installDir sizeOnDisk lastUpdated state].
  split; [now apply fieldValue_first|].
  split; [exists iv; split; [now apply fieldValue_first|reflexivity]|].
  repeat split; intros before v O; apply fieldValue_present in O;
    destruct O as (v0 & FO); exists v0; (split; [exact FO|]);
    apply fieldValue_first in FO; now rewrite FO.
Qed.

Lemma scanner_uses_first_occurrence_witness :
  exists g,
    contribution Demo.host "D:\\Games" "appmanifest_730.acf" = [g] /\
    first_occurrence "name" Regex.NotQuote Demo.counterStrike (name g) /\
    name g = "Counter-Strike 2" /\
    exists v0, first_occurrence "SizeOnDisk" Regex.Digit Demo.counterStrike v0 /\
               sizeOnDisk g = Str.parseInt v0 /\ sizeOnDisk g = 35000000000.
Proof.
  eexists. split; [reflexivity|].
  destruct (scanner_uses_first_occurrence Demo.host "D:\\Games" "appmanifest_730.acf"
              Demo.counterStrike _ eq_refl eq_refl) as (N & _ & S & _).
  split; [exact N|]. split; [reflexivity|].
  destruct (demo_occurs "SizeOnDisk" Regex.Digit Demo.counterStrike "35000000000" eq_refl)
    as (before & O).
  destruct (S before "35000000000" O) as (v0 & FO & E).
  exists v0. split; [exact FO|split; [exact E|reflexivity]].
Defined.

(** ** Array methods *)

Section ArrayLemmas.
Context {A : Type}.
Open Scope list_scope.

Lemma findIndex_from_range (p : A -> bool) (l : list A) (i : Z) :
  findIndex_from p l i = -1 \/
  i <= findIndex_from p l i < i + Z.of_nat (List.length l).
Proof.
  revert i. induction l as [|x l IH]; intros i; cbn [findIndex_from List.length].
  - now left.
  - destruct (p x); [right; lia|].
    destruct (IH (i + 1)) as [E|E]; [now left|right; lia].
Qed.

(** [findIndex] answers the position of an element exactly when the
    element satisfies the test and nothing before it does. *)
Lemma findIndex_from_hit (p : A -> bool) (before : list A) (x : A) (after : list A)
      (i : Z) :
  0 <= i ->
  findIndex_from p (before ++ x :: after) i = i + Z.of_nat (List.length before) <->
  p x = true /\ Forall (fun y => p y = false) before.
Proof.
  revert i. induction before as [|y before IH]; intros i Hi;
    cbn [app findIndex_from List.length].
  - destruct (p x) eqn:P.
    + split; [auto|intros _; lia].
    + split; [|intros [? _]; discriminate].
      intros E. pose proof (findIndex_from_range p after (i + 1)). lia.
  - destruct (p y) eqn:P.
    + split; [lia|]. intros [_ F]. inversion F. congruence.
    + rewrite Nat2Z.inj_succ.
      replace (i + Z.succ (Z.of_nat (List.length before)))
        with (i + 1 + Z.of_nat (List.length before)) by lia.
      rewrite IH by lia. split; intros [Px F]; split; auto.
      now inversion F.
Qed.

Lemma filter_from_in (p : A -> Z -> bool) (l : list A) (i : Z) (x : A) :
  In x (filter_from p l i) <->
  exists before after,
    l = before ++ x :: after /\ p x (i + Z.of_nat (List.length before)) = true.
Proof.
  revert i. induction l as [|y l IH]; intros i; cbn [filter_from].
  - split; [intros []|]. intros (before & after & E & _). now destruct before.
  - assert (Step : In x (filter_from p l (i + 1)) <->
                   exists before after, y :: l = (y :: before) ++ x :: after /\
                     p x (i + Z.of_nat (List.length (y :: before))) = true).
    { rewrite IH. split; intros (before & after & E & P); exists before, after.
      - subst l. split; [reflexivity|]. cbn [List.length]. rewrite Nat2Z.inj_succ.
        now replace (i + Z.succ (Z.of_nat (List.length before)))
          with (i + 1 + Z.of_nat (List.length before)) by lia.
      - injection E as ->. split; [reflexivity|]. cbn [List.length] in P.
        rewrite Nat2Z.inj_succ in P.
        now replace (i + 1 + Z.of_nat (List.length before))
          with (i + Z.succ (Z.of_nat (List.length before))) by lia. }
    destruct (p y i) eqn:P.
    + cbn [In]. rewrite Step. split.
      * intros [->|(before & after & E & Q)].
        -- exists [], l. split; [reflexivity|]. cbn. now rewrite Z.add_0_r.
        -- exists (y :: before), after. auto.
      * intros (before & after & E & Q). destruct before as [|z before].
        -- left. now injection E.
        -- right. injection E as <- E. exists before, after. subst l. auto.
    + rewrite Step. split.
      * intros (before & after & E & Q). exists (y :: before), after. auto.
      * intros (before & after & E & Q). destruct before as [|z before].
        -- injection E as <- _. cbn in Q. rewrite Z.add_0_r in Q. congruence.
        -- injection E as <- E. exists before, after. subst l. auto.
Qed.

Lemma insert_perm (cmp : A -> A -> Z) (x : A) (l : list A) :
  Permutation (insert cmp x l) (x :: l).
Proof.
  induction l as [|y l IH]; cbn; [reflexivity|].
  destruct (cmp x y <=? 0); [reflexivity|].
  rewrite IH. apply perm_swap.
Qed.

Lemma sort_perm (cmp : A -> A -> Z) (l : list A) : Permutation (sort cmp l) l.
Proof.
  induction l as [|x l IH]; cbn; [reflexivity|].
  rewrite insert_perm. now constructor.
Qed.

Section Sorted.
Variable cmp : A -> A -> Z.
Hypothesis cmp_total : forall a b, cmp a b <= 0 \/ cmp b a <= 0.
Hypothesis cmp_trans : forall a b c, cmp a b <= 0 -> cmp b c <= 0 -> cmp a c <= 0.

Lemma insert_sorted (x : A) (l : list A) :
  StronglySorted (fun a b => cmp a b <= 0) l ->
  StronglySorted (fun a b => cmp a b <= 0) (insert cmp x l).
Proof.
  induction 1 as [|y l S IH F]; cbn.
  - repeat constructor.
  - destruct (Z.leb_spec (cmp x y) 0) as [L|G].
    + constructor; [now constructor|]. constructor; [assumption|].
      eapply Forall_impl; [|exact F]. intros z. now apply cmp_trans.
    + constructor; [assumption|].
      assert (L : cmp y x <= 0) by (destruct (cmp_total x y); [lia|assumption]).
      eapply Permutation_Forall; [symmetry; apply insert_perm|].
      now constructor.
Qed.

Lemma sort_sorted (l : list A) :
  StronglySorted (fun a b => cmp a b <= 0) (sort cmp l).
Proof.
  induction l as [|x l IH]; cbn; [constructor|]. now apply insert_sorted.
Qed.

End Sorted.

Lemma StronglySorted_impl (P Q : A -> A -> Prop) (l : list A) :
  (forall a b, P a b -> Q a b) -> StronglySorted P l -> StronglySorted Q l.
Proof.
  intros I. induction 1 as [|x l S IH F]; constructor; auto.
  eapply Forall_impl; [|exact F]. auto.
Qed.

End ArrayLemmas.

Lemma fold_left_sizes (l : list SteamGame) (acc : Z) :
  fold_left (fun sum game => sum + sizeOnDisk game) l acc
  = acc + fold_right Z.add 0 (map sizeOnDisk l).
Proof.
  revert acc. induction l as [|g l IH]; intros acc; cbn; [lia|]. rewrite IH. lia.
Qed.

(** ** Deduplication *)

Lemma same_id_false (g : SteamGame) (l : list SteamGame) :
  Forall (fun y => (appid y =? appid g) = false) l <->
  Forall (fun x => appid x <> appid g) l.
Proof.
  split; intros F; (eapply Forall_impl; [|exact F]); intros y; cbv beta;
    rewrite Z.eqb_neq; auto.
Qed.

(** What [filter] keeps at index [i] of [self]. *)
Lemma dedupe_keeps (self : list SteamGame) (before : list SteamGame) (g : SteamGame)
      (after : list SteamGame) :
  self = (before ++ g :: after)%list ->
  (Z.of_nat (List.length before) =? findIndex (fun x => appid x =? appid g) self) = true <->
  Forall (fun x => appid x <> appid g) before.
Proof.
  intros ->. unfold findIndex. rewrite Z.eqb_eq.
  pose proof (findIndex_from_hit (fun x => appid x =? appid g) before g after 0
                (Z.le_refl 0)) as H.
  cbn [Z.add] in H. rewrite <- same_id_false. rewrite Z.eqb_refl in H.
  split.
  - intros E. apply H. now symmetry.
  - intros F. symmetry. apply H. auto.
Qed.

Lemma dedupe_in (self : list SteamGame) (g : SteamGame) :
  In g (dedupe self) <-> firstWithId self g.
Proof.
  unfold dedupe, filteri, firstWithId. rewrite filter_from_in. cbn [Z.add].
  split; intros (before & after & E & K); exists before, after; (split; [exact E|]).
  - now apply (dedupe_keeps self before g after E).
  - now apply (dedupe_keeps self before g after E).
Qed.

Lemma dedupe_from_NoDup (self seen rest : list SteamGame) :
  self = (seen ++ rest)%list ->
  NoDup (map appid
           (filter_from
              (fun game index => index =? findIndex (fun x => appid x =? appid game) self)
              rest (Z.of_nat (List.length seen)))).
Proof.
  revert seen. induction rest as [|g rest IH]; intros seen E; cbn [filter_from map].
  - constructor.
  - assert (E' : self = ((seen ++ [g]) ++ rest)%list) by (now rewrite <- app_assoc).
    specialize (IH (seen ++ [g])%list E').
    rewrite length_app in IH. cbn [List.length] in IH.
    rewrite Nat2Z.inj_add in IH. cbn in IH.
    destruct (Z.of_nat (List.length seen) =? _) eqn:K; [|exact IH].
    cbn [map]. constructor; [|exact IH].
    intros Hin. apply in_map_iff in Hin. destruct Hin as (g' & Eid & Hin).
    apply filter_from_in in Hin. destruct Hin as (before & after & Er & K').
    assert (E2 : self = ((seen ++ g :: before) ++ g' :: after)%list).
    { rewrite E, Er, <- app_assoc. reflexivity. }
    pose proof (proj1 (dedupe_keeps self _ g' after E2)) as P.
    rewrite length_app in P. cbn [List.length] in P.
    rewrite Nat2Z.inj_add, Nat2Z.inj_succ in P.
    replace (Z.of_nat (List.length seen) + Z.succ (Z.of_nat (List.length before)))
      with (Z.of_nat (List.length seen) + 1 + Z.of_nat (List.length before)) in P by lia.
    specialize (P K'). apply Forall_app in P. destruct P as [_ P].
    inversion P. congruence.
Qed.

Lemma dedupe_NoDup (self : list SteamGame) : NoDup (map appid (dedupe self)).
Proof. exact (dedupe_from_NoDup self [] self eq_refl). Qed.

(** ** Aggregator *)

Lemma getInstalledSteamGames_ok (h : Host) (info : SteamLibraryInfo) :
  getInstalledSteamGames h = Ok info ->
  exists steamPath extras,
    getSteamPath h = Ok (Some steamPath) /\
    getSteamLibraryPaths h steamPath = Ok (steamPath :: extras) /\
    info = summary (sort (byName h)
                      (dedupe (flat_map (libraryGames h) (steamPath :: extras)))).
Proof.
  intros E. pose proof (getInstalledSteamGames_cases h) as C. rewrite E in C.
  destruct C as (_ & p & G).
  destruct (getInstalledSteamGames_found h p G) as (extras & L & E').
  exists p, extras. split; [assumption|]. split; [assumption|]. congruence.
Qed.

Lemma NoDup_map_injective {A B : Type} (f : A -> B) (l : list A) (x y : A) :
  NoDup (map f l) -> In x l -> In y l -> f x = f y -> x = y.
Proof.
  induction l as [|z l IH]; cbn; [intros _ []|].
  intros N. inversion N as [|? ? Nin N']. subst.
  intros [->|Hx] [->|Hy] E; auto.
  - exfalso. apply Nin. rewrite E. now apply in_map.
  - exfalso. apply Nin. rewrite <- E. now apply in_map.
Qed.

Lemma sorted_games_in (h : Host) (l : list SteamGame) (g : SteamGame) :
  In g (sort (byName h) (dedupe l)) <-> firstWithId l g.
Proof.
  rewrite <- dedupe_in. split; apply Permutation_in;
    [apply sort_perm|symmetry; apply sort_perm].
Qed.

Lemma sorted_games_NoDup (h : Host) (l : list SteamGame) :
  NoDup (map appid (sort (byName h) (dedupe l))).
Proof.
  eapply Permutation_NoDup; [|apply dedupe_NoDup].
  apply Permutation_map. symmetry. apply sort_perm.
Qed.

Lemma firstWithId_in (l : list SteamGame) (g : SteamGame) :
  firstWithId l g -> In g l.
Proof.
  intros (earlier & later & -> & _). apply in_or_app. right. now left.
Qed.

(** On a host whose collation is a consistent comparator that uses case
    only to break ties, the games of a result are also in ascending order
    with the case of the names ignored. *)
Lemma sorted_ignoring_case (h : Host) (info : SteamLibraryInfo) :
  consistentCollation h -> caseBreaksTiesOnly h ->
  getInstalledSteamGames h = Ok info ->
  StronglySorted (nameOrderNoCase h) (games info).
Proof.
  intros [T Tr] Cs E. apply getInstalledSteamGames_ok in E.
  destruct E as (steamPath & extras & _ & _ & ->). cbn [summary games].
  eapply StronglySorted_impl;
    [|apply (sort_sorted (byName h)); unfold byName; intros; eauto].
  intros a b. unfold nameOrderNoCase. apply Cs.
Qed.

(** C3, as the code has it.  Every result of the scan has a count equal to
    the length of its list of games and pairwise distinct appids.  Its
    total size is the sum of the sizes of its games whenever that sum is at
    most 2^53, the range in which the additions of the source are exact.
    The list is sorted by name in ascending order of the host's
    [localeCompare], called without options, whenever that is a consistent
    comparator; the names are not case-folded. *)
Theorem getInstalledSteamGames_invariant (h : Host) (info : SteamLibraryInfo) :
  getInstalledSteamGames h = Ok info ->
  gameCount info = Z.of_nat (List.length (games info)) /\
  NoDup (map appid (games info)) /\
  (exactNumber (fold_right Z.add 0 (map sizeOnDisk (games info))) ->
   totalSize info = fold_right Z.add 0 (map sizeOnDisk (games info))) /\
  (consistentCollation h -> StronglySorted (nameOrder h) (games info)).
Proof.
  intros E. apply getInstalledSteamGames_ok in E.
  destruct E as (steamPath & extras & _ & _ & ->).
  cbn [summary gameCount totalSize games].
  split; [reflexivity|]. split; [apply sorted_games_NoDup|].
  split; [intros _; now rewrite fold_left_sizes|].
  intros [T Tr].
  apply (sort_sorted (byName h)); unfold byName; intros; eauto.
Qed.

(** C4.  The games of a result are exactly the first records with their
    appid in the concatenation of the per-library results, the libraries
    taken in the order the enumerator returned them, which starts with the
    base installation path; no two games of the result share an appid, so
    every later record with the same id is dropped. *)
Theorem first_library_wins (h : Host) (info : SteamLibraryInfo) :
  getInstalledSteamGames h = Ok info ->
  exists steamPath extras,
    getSteamPath h = Ok (Some steamPath) /\
    getSteamLibraryPaths h steamPath = Ok (steamPath :: extras) /\
    Forall (fun lib => parseAppManifests h lib = Ok (libraryGames h lib))
           (steamPath :: extras) /\
    (forall g, In g (games info) <->
               firstWithId (flat_map (libraryGames h) (steamPath :: extras)) g) /\
    (forall g g', In g (games info) -> In g' (games info) ->
                  appid g = appid g' -> g = g').
Proof.
  intros E. apply getInstalledSteamGames_ok in E.
  destruct E as (steamPath & extras & G & L & ->).
  exists steamPath, extras. cbn [summary games].
  split; [assumption|]. split; [assumption|].
  split; [apply Forall_forall; intros lib _; apply parseAppManifests_libraryGames|].
  split; [intros g; apply sorted_games_in|].
  intros g g'. apply NoDup_map_injective, sorted_games_NoDup.
Qed.

(** C7.  No game the scanner returns for a library, and no game of a
    result of the whole scan, has appid 228980 or 7. *)
Theorem reserved_never_listed (h : Host) :
  (forall lib, exists found,
     parseAppManifests h lib = Ok found /\
     Forall (fun g => ~ reserved (appid g)) found) /\
  (forall info, getInstalledSteamGames h = Ok info ->
     Forall (fun g => ~ reserved (appid g)) (games info)).
Proof.
  split.
  - intros lib. exists (libraryGames h lib).
    split; [apply parseAppManifests_libraryGames|apply libraryGames_not_reserved].
  - intros info E. apply getInstalledSteamGames_ok in E.
    destruct E as (steamPath & extras & _ & _ & ->). cbn [summary games].
    apply Forall_forall. intros g Hin.
    apply sorted_games_in, firstWithId_in, in_flat_map in Hin.
    destruct Hin as (lib & _ & Hin).
    pose proof (libraryGames_not_reserved h lib) as F.
    rewrite Forall_forall in F. now apply F.
Qed.

(** ** The collation of the concrete host *)

Module CollateFacts.
Import OrdersEx.

Lemma compare_refl (x : string) : String_as_OT.compare x x = Eq.
Proof.
  destruct (String_as_OT.compare_spec x x) as [_|L|L]; [reflexivity| |];
    now apply (StrictOrder_Irreflexive (R := String_as_OT.lt)) in L.
Qed.

Lemma compare_eq (x y : string) : String_as_OT.compare x y = Eq -> x = y.
Proof.
  destruct (String_as_OT.compare_spec x y) as [E|L|L]; [auto|discriminate|discriminate].
Qed.

Lemma compare_gt (x y : string) :
  String_as_OT.compare x y = Gt <-> String_as_OT.compare y x = Lt.
Proof.
  destruct (String_as_OT.compare_spec x y) as [E|L|L].
  - hnf in E. subst. rewrite compare_refl. split; discriminate.
  - split; [discriminate|]. intros L'. exfalso.
    apply (StrictOrder_Irreflexive (R := String_as_OT.lt) x).
    now apply (StrictOrder_Transitive (R := String_as_OT.lt) x y x).
  - split; auto.
Qed.

Lemma compare_lt_trans (x y z : string) :
  String_as_OT.compare x y = Lt -> String_as_OT.compare y z = Lt ->
  String_as_OT.compare x z = Lt.
Proof. apply (StrictOrder_Transitive (R := String_as_OT.lt)). Qed.

Lemma notAfter_total (x y : string) : Demo.notAfter x y \/ Demo.notAfter y x.
Proof.
  unfold Demo.notAfter. destruct (String_as_OT.compare x y) eqn:E.
  - left. discriminate.
  - left. discriminate.
  - right. apply compare_gt in E. congruence.
Qed.

Lemma notAfter_trans (x y z : string) : Demo.notAfter x y -> Demo.notAfter y z -> Demo.notAfter x z.
Proof.
  unfold Demo.notAfter. intros A B C. apply compare_gt in C.
  destruct (String_as_OT.compare x y) eqn:E; [| |congruence].
  - apply compare_eq in E. subst. apply compare_gt in C. contradiction.
  - pose proof (compare_lt_trans _ _ _ C E) as D. apply compare_gt in D. contradiction.
Qed.

Lemma sign_le (c : comparison) : Demo.sign c <= 0 <-> c <> Gt.
Proof. destruct c; cbn; split; intros; try lia; congruence. Qed.

Lemma collate_le (a b : string) :
  Demo.collate a b <= 0 <->
  String_as_OT.compare (Str.toLowerCase a) (Str.toLowerCase b) = Lt \/
  (Str.toLowerCase a = Str.toLowerCase b /\ Demo.notAfter b a).
Proof.
  unfold Demo.collate, Demo.notAfter.
  destruct (String_as_OT.compare (Str.toLowerCase a) (Str.toLowerCase b)) eqn:E.
  - rewrite sign_le. apply compare_eq in E. split; [auto|].
    intros [?|[_ ?]]; [discriminate|assumption].
  - cbn. split; [auto|lia].
  - cbn. split; [lia|]. intros [?|[F _]]; [discriminate|].
    rewrite F, compare_refl in E. discriminate.
Qed.

Lemma lowerChar_idempotent (c : ascii) :
  Str.lowerChar (Str.lowerChar c) = Str.lowerChar c.
Proof. destruct c as [[] [] [] [] [] [] [] []]; reflexivity. Qed.

Lemma toLowerCase_idempotent (s : string) :
  Str.toLowerCase (Str.toLowerCase s) = Str.toLowerCase s.
Proof.
  induction s as [|c s IH]; cbn; [reflexivity|].
  now rewrite lowerChar_idempotent, IH.
Qed.

Lemma collate_consistent : consistentCollation Demo.host.
Proof.
  split; cbn [localeCompare Demo.host Demo.win32].
  - intros a b. rewrite !collate_le.
    destruct (String_as_OT.compare (Str.toLowerCase a) (Str.toLowerCase b)) eqn:E.
    + apply compare_eq in E.
      destruct (notAfter_total b a); [left|right]; right; auto.
    + now left; left.
    + right; left. now apply compare_gt.
  - intros a b c. rewrite !collate_le.
    intros [L1|[E1 N1]] [L2|[E2 N2]].
    + left. eapply compare_lt_trans; eauto.
    + left. now rewrite <- E2.
    + left. now rewrite E1.
    + right. split; [congruence|]. eapply notAfter_trans; eauto.
Qed.

Lemma collate_case : caseBreaksTiesOnly Demo.host.
Proof.
  intros a b. cbn [localeCompare Demo.host Demo.win32].
  rewrite !collate_le, !toLowerCase_idempotent.
  intros [L|[E _]]; [now left|right].
  split; [assumption|]. unfold Demo.notAfter. now rewrite E, compare_refl.
Qed.

End CollateFacts.

Lemma getInstalledSteamGames_invariant_witness :
  exists info,
    getInstalledSteamGames Demo.host = Ok info /\
    map name (games info) = ["Counter-Strike 2"; "Dota 2"; "Portal"; "portal 2"] /\
    gameCount info = 4 /\
    NoDup (map appid (games info)) /\
    totalSize info = 51000000000 /\
    StronglySorted (nameOrder Demo.host) (games info).
Proof.
  eexists. split; [vm_compute; reflexivity|].
  split; [reflexivity|].
  destruct (getInstalledSteamGames_invariant Demo.host _ eq_refl)
    as (C & N & T & S).
  split; [exact C|]. split; [exact N|]. split.
  - apply T. vm_compute. discriminate.
  - exact (S CollateFacts.collate_consistent).
Defined.

Lemma compareCodeUnits_consistent : consistentCollation NoIntl.host.
Proof.
  split; cbn [localeCompare NoIntl.host]; unfold NoIntl.compareCodeUnits.
  - intros a b. rewrite !CollateFacts.sign_le. apply CollateFacts.notAfter_total.
  - intros a b c. rewrite !CollateFacts.sign_le. apply CollateFacts.notAfter_trans.
Qed.

(** C3 as stated fails: on a runtime whose [localeCompare] compares code
    units, a library holding apple and Zoo Tycoon is returned with Zoo
    Tycoon first, which is not ascending when case is ignored. *)
Lemma names_not_sorted_ignoring_case :
  consistentCollation NoIntl.host /\
  exists info,
    getInstalledSteamGames NoIntl.host = Ok info /\
    map name (games info) = ["Zoo Tycoon"; "apple"] /\
    StronglySorted (nameOrder NoIntl.host) (games info) /\
    ~ StronglySorted (nameOrderNoCase NoIntl.host) (games info) /\
    (Str.toLowerCase "apple" <? Str.toLowerCase "Zoo Tycoon")%string = true.
Proof.
  split; [apply compareCodeUnits_consistent|].
  eexists. split; [vm_compute; reflexivity|]. split; [reflexivity|].
  split; [|split; [|reflexivity]].
  - repeat constructor. vm_compute. discriminate.
  - intros S. inversion S as [|? ? _ F]. subst.
    inversion F as [|? ? O _]. subst. vm_compute in O. now apply O.
Qed.

Lemma first_library_wins_witness :
  exists info dota,
    getInstalledSteamGames Demo.host = Ok info /\
    In dota (games info) /\
    appid dota = 570 /\
    installDir dota = "C:\Steam\steamapps\common\dota 2 beta" /\
    forall g, In g (games info) -> appid g = 570 -> g = dota.
Proof.
  eexists. eexists. split; [vm_compute; reflexivity|].
  split; [right; left; reflexivity|].
  split; [reflexivity|]. split; [reflexivity|].
  destruct (first_library_wins Demo.host _ eq_refl) as (_ & _ & _ & _ & _ & _ & U).
  intros g Hin E. apply U; [exact Hin|right; left; reflexivity|exact E].
Defined.

Lemma reserved_never_listed_witness :
  exists info,
    getInstalledSteamGames Demo.host = Ok info /\
    Forall (fun g => ~ reserved (appid g)) (games info) /\
    existsSync Demo.host (manifestPathOf Demo.host "C:\Steam" "appmanifest_228980.acf")
      = true.
Proof.
  eexists. split; [vm_compute; reflexivity|].
  split; [|reflexivity].
  exact (proj2 (reserved_never_listed Demo.host) _ eq_refl).
Defined.

(** ** Further properties of the scanner *)

(** *** Trimming *)

Lemma rev_involutive (s : string) : Str.rev (Str.rev s) = s.
Proof.
  induction s as [|c s IH]; [reflexivity|].
  change (String c s) with (String c "" ++ s) at 1.
  rewrite rev_append, rev_append, IH. reflexivity.
Qed.

Lemma all_rev (p : ascii -> bool) (s : string) : Str.all p (Str.rev s) = Str.all p s.
Proof.
  induction s as [|c s IH]; [reflexivity|].
  change (String c s) with (String c "" ++ s) at 1.
  rewrite rev_append, all_append, IH. cbn. now rewrite andb_true_r, andb_comm.
Qed.

Lemma trimStart_split (s : string) :
  exists ws,
    s = ws ++ Str.trimStart s /\ Str.all Str.isSpace ws = true /\
    (Str.trimStart s = "" \/ startsTight (Str.trimStart s)).
Proof.
  induction s as [|c s (ws & E & A & T)]; cbn.
  - exists "". auto.
  - destruct (Str.isSpace c) eqn:C.
    + exists (String c ws). cbn. rewrite C, A. split; [now rewrite <- E|auto].
    + exists "". cbn. auto.
Qed.

(** [trim] removes a run of white space at each end and nothing else. *)
Lemma trim_split (s : string) :
  exists ws1 ws2,
    s = ws1 ++ Str.trim s ++ ws2 /\
    Str.all Str.isSpace ws1 = true /\ Str.all Str.isSpace ws2 = true /\
    (Str.trim s = "" \/ (startsTight (Str.trim s) /\ endsTight (Str.trim s))).
Proof.
  unfold Str.trim.
  destruct (trimStart_split s) as (ws1 & E1 & A1 & T1).
  destruct (trimStart_split (Str.rev (Str.trimStart s))) as (ws2 & E2 & A2 & T2).
  set (t := Str.trimStart s) in *.
  set (u := Str.trimStart (Str.rev t)) in *.
  assert (Et : t = Str.rev u ++ Str.rev ws2).
  { rewrite <- rev_append, <- E2. now rewrite rev_involutive. }
  exists ws1, (Str.rev ws2). split; [now rewrite <- Et|].
  split; [assumption|]. split; [now rewrite all_rev|].
  destruct T2 as [U|U]; [left; now rewrite U|right]. split.
  - destruct T1 as [T1|T1].
    + rewrite Et in T1. destruct (Str.rev u) eqn:R; [|discriminate].
      apply (f_equal Str.rev) in R. rewrite rev_involutive in R. subst u.
      rewrite R in U. destruct U.
    + rewrite Et in T1. destruct (Str.rev u) eqn:R; [|exact T1].
      apply (f_equal Str.rev) in R. rewrite rev_involutive in R.
      rewrite R in U. destruct U.
  - unfold endsTight. now rewrite rev_involutive.
Qed.

Lemma all_space_not_tight (s : string) :
  Str.all Str.isSpace s = true -> ~ startsTight s.
Proof.
  destruct s as [|c s]; cbn; [auto|]. intros A T.
  apply andb_true_iff in A as [A _]. congruence.
Qed.

(** A text is blank, in the sense of [!s.trim()], exactly when all its
    characters are white space. *)
Lemma trim_blank (s : string) : Str.trim s = "" <-> Str.all Str.isSpace s = true.
Proof.
  destruct (trim_split s) as (ws1 & ws2 & E & A1 & A2 & T). split.
  - intros B. rewrite B in E. cbn in E. rewrite E, all_append. now rewrite A1, A2.
  - intros A. destruct T as [T|[T _]]; [assumption|].
    rewrite E, !all_append in A.
    apply andb_true_iff in A as [_ A]. apply andb_true_iff in A as [A _].
    now apply all_space_not_tight in A.
Qed.

(** X1.  On win32 a path returned by the resolver is the output of one of
    the two registry queries with the white space at both ends removed: it
    is not empty, begins and ends with a character that is not white space,
    and exists on disk. *)
Theorem getSteamPath_trimmed (h : Host) (p : string) :
  getSteamPath h = Ok (Some p) ->
  platform h = "win32" /\
  startsTight p /\ endsTight p /\ existsSync h p = true /\
  exists key stdout ws1 ws2,
    In key registryPaths /\
    execAsync h (registryCommand key) = Ok stdout /\
    stdout = ws1 ++ p ++ ws2 /\
    Str.all Str.isSpace ws1 = true /\ Str.all Str.isSpace ws2 = true.
Proof.
  intros G.
  destruct (String.eqb_spec (platform h) "win32") as [W|W];
    [|rewrite (getSteamPath_other h W) in G; discriminate].
  split; [assumption|].
  rewrite (getSteamPath_win32 h W) in G.
  assert (F : firstRegistryHit h registryPaths = Some p) by congruence.
  apply firstRegistryHit_some in F.
  destruct F as (before & key & after & K & (stdout & X & -> & Ne & Ex) & _).
  destruct (trim_split stdout) as (ws1 & ws2 & E & A1 & A2 & [T|[T1 T2]]);
    [contradiction|].
  split; [assumption|]. split; [assumption|]. split; [assumption|].
  exists key, stdout, ws1, ws2. repeat split; auto.
  rewrite K. apply in_or_app. right. now left.
Qed.

Lemma getSteamPath_trimmed_witness :
  startsTight "C:\Steam" /\ endsTight "C:\Steam" /\
  existsSync Demo.host "C:\Steam" = true.
Proof.
  destruct (getSteamPath_trimmed Demo.host "C:\Steam" eq_refl) as (_ & S & E & X & _).
  repeat split; assumption.
Defined.

(** *** Library enumerator *)

Lemma substring_prefix (a b : string) : substring 0 (String.length a) (a ++ b) = a.
Proof.
  induction a as [|c a IH]; cbn.
  - now destruct b.
  - now rewrite IH.
Qed.

Lemma whole_match (a rest : string) :
  substring 0 (String.length (a ++ rest) - String.length rest) (a ++ rest) = a.
Proof.
  rewrite length_append.
  replace (String.length a + String.length rest - String.length rest)%nat
    with (String.length a) by lia.
  apply substring_prefix.
Qed.

(** Every text returned by a global match is the text of a match of the
    pattern somewhere in the subject. *)
Lemma match_global_from_in (re : Regex.regex) (s : string) :
  forall skip w,
    In w (Regex.match_global_from re skip s) ->
    exists before suffix caps rest,
      s = before ++ suffix /\
      Regex.match_here re suffix = Some (caps, rest) /\
      w = substring 0 (String.length suffix - String.length rest) suffix.
Proof.
  assert (Shift : forall x s' w,
    (exists before suffix caps rest,
       s' = before ++ suffix /\
       Regex.match_here re suffix = Some (caps, rest) /\
       w = substring 0 (String.length suffix - String.length rest) suffix) ->
    exists before suffix caps rest,
      String x s' = before ++ suffix /\
      Regex.match_here re suffix = Some (caps, rest) /\
      w = substring 0 (String.length suffix - String.length rest) suffix).
  { intros x s' w (before & suffix & caps & rest & -> & M & E).
    exists (String x before), suffix, caps, rest. auto. }
  induction s as [|x s IH]; intros skip w.
  - destruct skip; cbn; [|intros []]. unfold Regex.exec_at.
    destruct (Regex.match_here re "") as [[caps rest]|] eqn:M; cbn; [|intros []].
    intros [<-|[]]. exists "", "", caps, rest. auto.
  - destruct skip as [|k]; cbn [Regex.match_global_from].
    + unfold Regex.exec_at.
      destruct (Regex.match_here re (String x s)) as [[caps rest]|] eqn:M.
      * cbn [nth In]. intros [<-|H].
        -- exists "", (String x s), caps, rest. auto.
        -- apply Shift. eapply IH; eauto.
      * intros H. apply Shift. eapply IH; eauto.
    + intros H. apply Shift. eapply IH; eauto.
Qed.

Lemma match_global_none (re : Regex.regex) (s : string) :
  Regex.exec re s = None -> Regex.match_global re s = [].
Proof.
  unfold Regex.match_global. induction s as [|x s IH]; cbn.
  - destruct (Regex.exec_at re ""); [discriminate|reflexivity].
  - destruct (Regex.exec_at re (String x s)); [discriminate|]. exact IH.
Qed.

Lemma match_global_leftmost (re : Regex.regex) (before suffix : string)
      (caps : list string) (rest : string) :
  Regex.match_here re suffix = Some (caps, rest) ->
  (forall before' suffix', before ++ suffix = before' ++ suffix' ->
     (String.length before' < String.length before)%nat ->
     Regex.match_here re suffix' = None) ->
  exists more,
    Regex.match_global re (before ++ suffix) =
    substring 0 (String.length suffix - String.length rest) suffix :: more.
Proof.
  unfold Regex.match_global. intros M.
  induction before as [|x before IH]; intros E.
  - cbn [append]. destruct suffix; cbn [Regex.match_global_from];
      unfold Regex.exec_at; rewrite M; cbn [nth]; eauto.
  - cbn [append Regex.match_global_from]. unfold Regex.exec_at at 1.
    rewrite (E "" (String x (before ++ suffix))); [|reflexivity|cbn; lia].
    apply IH. intros before' suffix' H L.
    apply (E (String x before') suffix'); [cbn; now rewrite H|cbn; lia].
Qed.

(** The text of a match of a field pattern, matched again, yields the
    same value. *)
Lemma field_match_again (key : string) (c : Regex.cclass) (suffix v rest : string) :
  field_at key c suffix v rest ->
  Regex.group1
    (Regex.exec (Regex.field key c)
       (substring 0 (String.length suffix - String.length rest) suffix)) = Some v.
Proof.
  intros (ws & -> & Nws & Aws & Nv & Av).
  set (w := Str.quoted key ++ ws ++ String Str.dq (v ++ String Str.dq "")).
  assert (E : Str.quoted key ++ ws ++ String Str.dq (v ++ String Str.dq rest) = w ++ rest).
  { unfold w. rewrite !append_assoc. cbn. now rewrite !append_assoc. }
  rewrite E, whole_match.
  assert (M : Regex.match_here (Regex.field key c) w = Some ([v], "")).
  { apply match_here_field. exists v. split; [reflexivity|]. exists ws. auto. }
  pose proof (exec_leftmost (Regex.field key c) "" w [v] "" M) as L.
  cbn [append] in L. rewrite L; [reflexivity|].
  cbn. intros ? ? _ H. lia.
Qed.

Lemma collectLibraryPaths_in (h : Host) (ms : list string) (p : string) :
  In p (collectLibraryPaths h ms) ->
  exists m,
    In m ms /\
    Regex.group1 (Regex.exec (Regex.field "path" Regex.NotQuote) m) = Some p /\
    p <> "" /\ existsSync h p = true.
Proof.
  induction ms as [|m ms IH]; cbn [collectLibraryPaths]; [intros []|].
  destruct (Regex.group1 (Regex.exec (Regex.field "path" Regex.NotQuote) m))
    as [path|] eqn:G.
  - unfold truthy. destruct (String.eqb_spec path "") as [E|Ne]; cbn [negb andb].
    + intros H. destruct (IH H) as (m' & I & R). exists m'. split; [now right|exact R].
    + destruct (existsSync h path) eqn:X.
      * intros [<-|H].
        -- exists m. split; [now left|]. auto.
        -- destruct (IH H) as (m' & I & R). exists m'. split; [now right|exact R].
      * intros H. destruct (IH H) as (m' & I & R). exists m'. split; [now right|exact R].
  - intros H. destruct (IH H) as (m' & I & R). exists m'. split; [now right|exact R].
Qed.

(** X2.  The enumerator returns the base path first.  Every path after it
    is the value of a path pair of the descriptor file, which was present
    and readable; it is not empty and exists on disk. *)
Theorem getSteamLibraryPaths_sound (h : Host) (steamPath : string) :
  exists extras,
    getSteamLibraryPaths h steamPath = Ok (steamPath :: extras) /\
    forall p, In p extras ->
      p <> "" /\ existsSync h p = true /\
      existsSync h (join h [steamPath; "steamapps"; "libraryfolders.vdf"]) = true /\
      exists content before,
        readFile h (join h [steamPath; "steamapps"; "libraryfolders.vdf"]) = Ok content /\
        occurs "path" Regex.NotQuote content before p.
Proof.
  unfold getSteamLibraryPaths. cbv zeta.
  destruct (existsSync h (join h [steamPath; "steamapps"; "libraryfolders.vdf"])) eqn:X;
    cbn [negb]; [|exists []; split; [reflexivity|intros ? []]].
  destruct (readFile h (join h [steamPath; "steamapps"; "libraryfolders.vdf"]))
    as [content|e] eqn:F; cbn [bind try_catch];
    [|exists []; split; [reflexivity|intros ? []]].
  eexists. split; [reflexivity|].
  intros p Hin. apply collectLibraryPaths_in in Hin.
  destruct Hin as (m & Hm & G & Ne & Ex).
  split; [assumption|]. split; [assumption|]. split; [reflexivity|].
  exists content.
  apply match_global_from_in in Hm.
  destruct Hm as (before & suffix & caps & rest & -> & M & ->).
  apply match_here_field in M. destruct M as (v & -> & A).
  rewrite (field_match_again _ _ _ _ _ A) in G. injection G as ->.
  exists before. split; [reflexivity|]. exists suffix, rest. auto.
Qed.

(** X3.  Without a descriptor file, or with a descriptor that has no path
    pair, the base path is the only library.  When the first path pair of
    the descriptor names a directory that exists, that directory is the
    second library; when it names one that does not exist, it is not
    listed. *)
Theorem getSteamLibraryPaths_descriptor (h : Host) (steamPath : string) :
  let descriptor := join h [steamPath; "steamapps"; "libraryfolders.vdf"] in
  (existsSync h descriptor = false ->
   getSteamLibraryPaths h steamPath = Ok [steamPath]) /\
  (forall content,
     readFile h descriptor = Ok content ->
     absent "path" Regex.NotQuote content ->
     getSteamLibraryPaths h steamPath = Ok [steamPath]) /\
  (forall content v,
     existsSync h descriptor = true ->
     readFile h descriptor = Ok content ->
     first_occurrence "path" Regex.NotQuote content v ->
     exists others,
       getSteamLibraryPaths h steamPath =
       Ok (steamPath :: (if existsSync h v then [v] else []) ++ others)%list /\
       (existsSync h v = false -> ~ In v others)).
Proof.
  cbv zeta. unfold getSteamLibraryPaths. cbv zeta. split; [|split].
  - intros ->. reflexivity.
  - intros content F A. rewrite F. apply fieldValue_absent in A.
    unfold fieldValue in A.
    assert (E : Regex.exec (Regex.field "path" Regex.NotQuote) content = None).
    { destruct (Regex.exec (Regex.field "path" Regex.NotQuote) content) as [m|] eqn:E;
        [|reflexivity].
      apply exec_some in E. destruct E as (b & sfx & caps & rest & _ & M & G & _).
      apply match_here_field in M. destruct M as (v0 & -> & _).
      rewrite G in A. discriminate. }
    destruct (existsSync h _); cbn; [|reflexivity].
    now rewrite (match_global_none _ _ E).
  - intros content v X F (before & (suffix & rest & -> & A) & Fst).
    rewrite X, F. cbn [negb bind try_catch].
    assert (M : Regex.match_here (Regex.field "path" Regex.NotQuote) suffix
                = Some ([v], rest)) by (apply match_here_field; eauto).
    destruct (match_global_leftmost _ before suffix [v] rest M) as (more & G).
    { intros before' suffix' E L.
      destruct (Regex.match_here (Regex.field "path" Regex.NotQuote) suffix')
        as [[caps' rest']|] eqn:M'; [|reflexivity].
      apply match_here_field in M'. destruct M' as (v' & _ & A').
      assert (String.length before <= String.length before')%nat; [|lia].
      apply (Fst before' v'). exists suffix', rest'. auto. }
    rewrite G. cbn [collectLibraryPaths].
    rewrite (field_match_again _ _ _ _ _ A).
    assert (Nv : truthy v = true).
    { destruct A as (_ & _ & _ & _ & Nv & _). unfold truthy.
      apply String.eqb_neq in Nv. now rewrite Nv. }
    rewrite Nv. cbn [andb].
    exists (collectLibraryPaths h more).
    destruct (existsSync h v) eqn:Xv; cbn [app]; (split; [reflexivity|]).
    + discriminate.
    + intros _ Hin. apply collectLibraryPaths_in in Hin.
      destruct Hin as (_ & _ & _ & _ & Ex). congruence.
Qed.

Lemma getSteamLibraryPaths_descriptor_witness :
  getSteamLibraryPaths Demo.host "D:\\Games" = Ok ["D:\\Games"] /\
  exists others,
    getSteamLibraryPaths Demo.host "C:\Steam" = Ok ("C:\Steam" :: ["C:\\Steam"] ++ others)%list.
Proof.
  split.
  - apply (getSteamLibraryPaths_descriptor Demo.host "D:\\Games"). reflexivity.
  - destruct (getSteamLibraryPaths_descriptor Demo.host "C:\Steam") as (_ & _ & P).
    destruct (P Demo.libraryFolders "C:\\Steam") as (others & E & _).
    + reflexivity.
    + reflexivity.
    + now apply fieldValue_first.
    + exists others. exact E.
Defined.

Lemma getSteamLibraryPaths_sound_witness :
  exists extras,
    getSteamLibraryPaths Demo.host "C:\Steam" = Ok ("C:\Steam" :: extras) /\
    In "D:\\Games" extras /\ existsSync Demo.host "D:\\Games" = true.
Proof.
  destruct (getSteamLibraryPaths_sound Demo.host "C:\Steam") as (extras & E & S).
  exists extras. split; [exact E|].
  assert (I : In "D:\\Games" extras).
  { vm_compute in E. injection E as <-. right. now left. }
  split; [exact I|]. exact (proj1 (proj2 (S _ I))).
Defined.

(** *** Manifest scanner *)

Lemma match_here_manifestName_inv (s : string) (caps : list string) (rest : string) :
  Regex.match_here Regex.manifestName s = Some (caps, rest) ->
  exists digits,
    caps = [digits] /\ digitRun digits /\ s = manifestFileName digits ++ rest.
Proof.
  unfold Regex.manifestName, manifestFileName. cbn [Regex.match_here].
  destruct (Str.strip_prefix "appmanifest_" s) as [s1|] eqn:P; [|discriminate].
  apply strip_prefix_some in P. subst s.
  intros H. apply plus_bt_sound in H. destruct H as (digits & s2 & -> & N & A & H).
  destruct (Str.strip_prefix ".acf" s2) as [s3|] eqn:Q; [|discriminate].
  apply strip_prefix_some in Q. subst s2. injection H as <- <-.
  exists digits. split; [reflexivity|]. split; [split; assumption|].
  now rewrite !append_assoc.
Qed.

Lemma exec_manifestName_inv (file digits : string) :
  Regex.group1 (Regex.exec Regex.manifestName file) = Some digits ->
  digitRun digits /\
  exists before after, file = before ++ manifestFileName digits ++ after.
Proof.
  destruct (Regex.exec Regex.manifestName file) as [m|] eqn:E; [|discriminate].
  apply exec_some in E. destruct E as (before & suffix & caps & rest & -> & M & G & _).
  apply match_here_manifestName_inv in M. destruct M as (d & -> & D & ->).
  rewrite G. cbn. intros [= <-]. split; [assumption|]. eauto.
Qed.

Lemma parseInt_from_nonneg (s : string) (acc : Z) :
  0 <= acc -> 0 <= Str.parseInt_from acc s.
Proof.
  revert acc. induction s as [|c s IH]; intros acc H; cbn [Str.parseInt_from];
    [assumption|].
  destruct (Str.isDigit c) eqn:D; [|assumption].
  apply IH. unfold Str.isDigit in D. unfold Str.digitVal.
  apply andb_true_iff in D as [D _]. apply Nat.leb_le in D. lia.
Qed.

Lemma parseInt_nonneg (s : string) : 0 <= Str.parseInt s.
Proof. apply parseInt_from_nonneg. lia. Qed.

Lemma first_occurrence_value (key : string) (c : Regex.cclass) (content v : string) :
  first_occurrence key c content v ->
  v <> "" /\ Str.all (Regex.inClass c) v = true.
Proof.
  intros (before & (suffix & rest & _ & ws & _ & _ & _ & N & A) & _). auto.
Qed.

Lemma gameRecord_wellFormed (h : Host) (lib content digits nv iv : string) :
  ~ reserved (Str.parseInt digits) ->
  fieldValue "name" Regex.NotQuote content = Some nv ->
  wellFormedGame (gameRecord h lib (Str.parseInt digits) content nv iv).
Proof.
  intros Rv N. apply fieldValue_first, first_occurrence_value in N.
  destruct N as [Ne A]. unfold wellFormedGame.
  cbn [gameRecord name appid sizeOnDisk lastUpdated state].
  split; [assumption|]. split; [assumption|].
  split; [apply parseInt_nonneg|]. split; [assumption|]. split.
  - destruct (fieldValue "SizeOnDisk" Regex.Digit content);
      [apply parseInt_nonneg|lia].
  - split; intros t; (destruct (fieldValue _ Regex.Digit content); cbn;
      [intros [= <-]; apply parseInt_nonneg|discriminate]).
Qed.

(** X4.  Every game the scanner returns for a library comes from an entry
    of the steamapps directory listing that passes the name filter, whose
    name contains appmanifest_<digits>.acf, and whose file was present and
    readable; an appid below 2^53, which the source's number holds exactly,
    is the number written by the digits; the name and the install directory
    are the values of the first name pair and the first installdir pair of
    its text. *)
Theorem parseAppManifests_sound (h : Host) (lib : string) (found : list SteamGame)
        (g : SteamGame) :
  parseAppManifests h lib = Ok found ->
  In g found ->
  exists files file digits before after content,
    existsSync h (steamappsOf h lib) = true /\
    readdir h (steamappsOf h lib) = Ok files /\
    In file files /\ isManifestFile file = true /\
    file = before ++ manifestFileName digits ++ after /\
    digitRun digits /\
    (appid g < 2 ^ 53 -> appid g = Str.parseInt digits) /\
    existsSync h (manifestPathOf h lib file) = true /\
    readFile h (manifestPathOf h lib file) = Ok content /\
    first_occurrence "name" Regex.NotQuote content (name g) /\
    exists d, first_occurrence "installdir" Regex.NotQuote content d /\
              installDir g = join h [lib; "steamapps"; "common"; d].
Proof.
  rewrite parseAppManifests_eq. intros [= <-].
  destruct (existsSync h (steamappsOf h lib)) eqn:X; [|intros []].
  destruct (readdir h (steamappsOf h lib)) as [files|e] eqn:R; [|intros []].
  intros Hin. apply in_flat_map in Hin. destruct Hin as (file & Hf & Hg).
  apply filter_In in Hf. destruct Hf as [Hf Hm].
  apply contribution_in, scanManifest_some in Hg.
  destruct Hg as (content & digits & nv & iv & Xf & F & D & _ & N & I & ->).
  apply exec_manifestName_inv in D. destruct D as (D & before & after & E).
  exists files, file, digits, before, after, content.
  cbn [gameRecord appid name installDir].
  repeat split; auto; try (now apply D).
  - now apply fieldValue_first.
  - exists iv. split; [now apply fieldValue_first|reflexivity].
Qed.

Lemma parseAppManifests_sound_witness :
  exists g file digits,
    In g (libraryGames Demo.host "D:\\Games") /\
    name g = "Portal" /\
    In file ["appmanifest_570.acf"; "appmanifest_400.acf"; "appmanifest_730.acf"] /\
    digitRun digits /\ Str.parseInt digits = 400.
Proof.
  assert (P : parseAppManifests Demo.host "D:\\Games"
              = Ok (libraryGames Demo.host "D:\\Games"))
    by apply parseAppManifests_libraryGames.
  assert (I : In (gameRecord Demo.host "D:\\Games" 400
                    (Demo.manifest "Portal" "Portal" "4000000000") "Portal" "Portal")
                 (libraryGames Demo.host "D:\\Games")).
  { vm_compute. right. left. reflexivity. }
  destruct (parseAppManifests_sound Demo.host "D:\\Games" _ _ P I)
    as (files & file & digits & before & after & content
        & _ & R & Hf & _ & _ & D & A & _).
  eexists. exists file, digits. split; [exact I|]. split; [reflexivity|].
  split; [|split; [exact D|symmetry; apply A; reflexivity]].
  vm_compute in R. injection R as <-. exact Hf.
Defined.

(** X5.  Every game the scanner returns, and every game of a result of
    the whole scan, has a non-empty name without double quotes, an appid
    that is not negative and not reserved, a size that is not negative,
    and, when set, an update time and state flags that are not negative.
    The total size of a result is not negative and is at least the size of
    each of its games. *)
Theorem scanned_games_wellFormed (h : Host) :
  (forall lib found, parseAppManifests h lib = Ok found ->
     Forall wellFormedGame found) /\
  (forall info, getInstalledSteamGames h = Ok info ->
     Forall wellFormedGame (games info) /\
     0 <= totalSize info /\
     forall g, In g (games info) -> sizeOnDisk g <= totalSize info).
Proof.
  assert (L : forall lib, Forall wellFormedGame (libraryGames h lib)).
  { intros lib. apply Forall_forall. intros g H. apply libraryGames_in in H.
    destruct H as (file & H). apply scanManifest_some in H.
    destruct H as (content & digits & nv & iv & _ & _ & _ & Rv & N & _ & ->).
    now apply gameRecord_wellFormed. }
  split.
  - intros lib found. rewrite parseAppManifests_libraryGames. intros [= <-]. apply L.
  - intros info E. apply getInstalledSteamGames_ok in E.
    destruct E as (steamPath & extras & _ & _ & ->). cbn [summary games totalSize].
    set (us := sort (byName h) (dedupe (flat_map (libraryGames h) (steamPath :: extras)))).
    assert (W : Forall wellFormedGame us).
    { apply Forall_forall. intros g Hin.
      apply sorted_games_in, firstWithId_in, in_flat_map in Hin.
      destruct Hin as (lib & _ & Hin).
      pose proof (L lib) as F. rewrite Forall_forall in F. now apply F. }
    split; [exact W|]. rewrite fold_left_sizes, Z.add_0_l.
    clear -W. induction us as [|x us IH]; cbn.
    + split; [lia|intros ? []].
    + inversion W as [|? ? Wx Wr]. subst. destruct (IH Wr) as [T B].
      destruct Wx as (_ & _ & _ & _ & Sx & _).
      split; [lia|]. intros g [<-|Hin]; [lia|]. specialize (B g Hin). lia.
Qed.

Lemma scanned_games_wellFormed_witness :
  exists info,
    getInstalledSteamGames Demo.host = Ok info /\
    Forall wellFormedGame (games info) /\ 0 <= totalSize info.
Proof.
  eexists. split; [vm_compute; reflexivity|].
  destruct (proj2 (scanned_games_wellFormed Demo.host) _ eq_refl) as (W & T & _).
  split; assumption.
Defined.

Lemma parseInt_from_zeros (zeros s : string) :
  Str.all isZeroChar zeros = true ->
  Str.parseInt_from 0 (zeros ++ s) = Str.parseInt_from 0 s.
Proof.
  induction zeros as [|c zeros IH]; cbn; [reflexivity|].
  intros A. apply andb_true_iff in A as [C A].
  unfold isZeroChar in C. apply Nat.eqb_eq in C.
  unfold Str.isDigit, Str.digitVal. rewrite C. cbn. now apply IH.
Qed.

Lemma zeros_digits (zeros : string) :
  Str.all isZeroChar zeros = true -> Str.all Str.isDigit zeros = true.
Proof.
  apply all_weaken. intros x H. unfold isZeroChar in H. apply Nat.eqb_eq in H.
  unfold Str.isDigit. now rewrite H.
Qed.

(** X6.  The reserved identifiers are recognised by number, however the
    file name writes them: a manifest named appmanifest_<digits>.acf whose
    digits denote 228980 or 7 contributes nothing, and leading zeros do
    not change the number, so appmanifest_007.acf is skipped too. *)
Theorem reserved_by_number (h : Host) (lib : string) :
  (forall digits, digitRun digits -> reserved (Str.parseInt digits) ->
     contribution h lib (manifestFileName digits) = []) /\
  (forall zeros digits, Str.all isZeroChar zeros = true ->
     Str.parseInt (zeros ++ digits) = Str.parseInt digits) /\
  (forall zeros, Str.all isZeroChar zeros = true ->
     contribution h lib (manifestFileName (zeros ++ "7")) = [] /\
     contribution h lib (manifestFileName (zeros ++ "228980")) = []).
Proof.
  assert (R : forall digits, digitRun digits -> reserved (Str.parseInt digits) ->
                contribution h lib (manifestFileName digits) = []).
  { intros digits D Rv. unfold contribution.
    destruct (scanManifest h lib (manifestFileName digits)) as [g|] eqn:S;
      [|reflexivity].
    apply scanManifest_some in S.
    destruct S as (content & digits' & nv & iv & _ & _ & D' & Rv' & _).
    rewrite (exec_manifestName digits D) in D'. injection D' as <-. contradiction. }
  split; [exact R|]. split; [intros; now apply parseInt_from_zeros|].
  intros zeros Z. split; apply R.
  - split; [now destruct zeros|]. rewrite all_append, (zeros_digits zeros Z). reflexivity.
  - unfold Str.parseInt. rewrite parseInt_from_zeros by assumption. now right.
  - split; [now destruct zeros|]. rewrite all_append, (zeros_digits zeros Z). reflexivity.
  - unfold Str.parseInt. rewrite parseInt_from_zeros by assumption. now left.
Qed.

Lemma reserved_by_number_witness :
  contribution Demo.host "C:\Steam" "appmanifest_007.acf" = [] /\
  contribution Demo.host "C:\Steam" "appmanifest_228980.acf" = [].
Proof.
  split.
  - exact (proj1 (proj2 (proj2 (reserved_by_number Demo.host "C:\Steam")) "00" eq_refl)).
  - apply (proj1 (reserved_by_number Demo.host "C:\Steam") "228980").
    + split; [discriminate|reflexivity].
    + now left.
Defined.

(** *** Aggregator *)

Lemma firstWithId_exists (l : list SteamGame) (g : SteamGame) :
  In g l -> exists g', firstWithId l g' /\ appid g' = appid g.
Proof.
  induction l as [|x l IH]; [intros []|]. intros Hin.
  destruct (Z.eq_dec (appid x) (appid g)) as [E|N].
  - exists x. split; [|assumption]. exists [], l. split; [reflexivity|constructor].
  - destruct Hin as [->|Hin]; [congruence|].
    destruct (IH Hin) as (g' & (earlier & later & -> & F) & E).
    exists g'. split; [|assumption].
    exists (x :: earlier), later. split; [reflexivity|].
    constructor; [congruence|assumption].
Qed.

Lemma filter_from_all {A : Type} (p : A -> Z -> bool) (l : list A) (i : Z) :
  (forall before x after, l = (before ++ x :: after)%list ->
     p x (i + Z.of_nat (List.length before)) = true) ->
  filter_from p l i = l.
Proof.
  revert i. induction l as [|y l IH]; intros i H; cbn [filter_from]; [reflexivity|].
  pose proof (H [] y l eq_refl) as P. cbn in P. rewrite Z.add_0_r in P. rewrite P.
  f_equal. apply IH. intros before x after E.
  specialize (H (y :: before) x after). cbn [List.length] in H.
  rewrite Nat2Z.inj_succ in H.
  replace (i + 1 + Z.of_nat (List.length before))
    with (i + Z.succ (Z.of_nat (List.length before))) by lia.
  apply H. now rewrite E.
Qed.

Lemma NoDup_ids_before (before : list SteamGame) (g : SteamGame) (after : list SteamGame) :
  NoDup (map appid (before ++ g :: after)) ->
  Forall (fun x => appid x <> appid g) before.
Proof.
  induction before as [|y before IH]; cbn; [constructor|].
  intros N. inversion N as [|? ? Nin N']. subst.
  constructor; [|now apply IH].
  intros E. apply Nin. rewrite E. apply in_map, in_or_app. right. now left.
Qed.

Lemma dedupe_distinct (l : list SteamGame) : NoDup (map appid l) -> dedupe l = l.
Proof.
  intros N. unfold dedupe, filteri. apply filter_from_all.
  intros before x after E. cbn [Z.add].
  apply (dedupe_keeps l before x after E). rewrite E in N.
  now apply NoDup_ids_before in N.
Qed.

Lemma sort_nil {A : Type} (cmp : A -> A -> Z) (l : list A) : sort cmp l = [] <-> l = [].
Proof.
  split; [|intros ->; reflexivity]. intros E.
  pose proof (sort_perm cmp l) as P. rewrite E in P.
  now apply Permutation_nil in P.
Qed.

Lemma dedupe_nil (l : list SteamGame) : dedupe l = [] <-> l = [].
Proof.
  split; [|intros ->; reflexivity]. destruct l as [|x l]; [reflexivity|].
  intros E. exfalso.
  assert (I : In x (dedupe (x :: l))).
  { apply dedupe_in. exists [], l. split; [reflexivity|constructor]. }
  rewrite E in I. destruct I.
Qed.

Lemma filter_from_length {A : Type} (p : A -> Z -> bool) (l : list A) (i : Z) :
  (List.length (filter_from p l i) <= List.length l)%nat.
Proof.
  revert i. induction l as [|x l IH]; intros i; cbn [filter_from List.length]; [lia|].
  specialize (IH (i + 1)). destruct (p x i); cbn [List.length]; lia.
Qed.

(** X7.  Deduplication loses no application: for every record found in
    any library of the scan, the result has a game with the same appid;
    every game of the result was found in one of the libraries; and the
    result has no more games than were found. *)
Theorem no_application_lost (h : Host) (info : SteamLibraryInfo) :
  getInstalledSteamGames h = Ok info ->
  exists steamPath extras,
    getSteamPath h = Ok (Some steamPath) /\
    getSteamLibraryPaths h steamPath = Ok (steamPath :: extras) /\
    (forall lib g, In lib (steamPath :: extras) -> In g (libraryGames h lib) ->
       exists g', In g' (games info) /\ appid g' = appid g) /\
    (forall g, In g (games info) ->
       exists lib, In lib (steamPath :: extras) /\ In g (libraryGames h lib)) /\
    gameCount info <= Z.of_nat (List.length (allFound h (steamPath :: extras))).
Proof.
  intros E. apply getInstalledSteamGames_ok in E.
  destruct E as (steamPath & extras & G & L & ->).
  exists steamPath, extras. cbn [summary games gameCount].
  split; [assumption|]. split; [assumption|]. split; [|split].
  - intros lib g Hl Hg.
    assert (I : In g (flat_map (libraryGames h) (steamPath :: extras))).
    { apply in_flat_map. eauto. }
    destruct (firstWithId_exists _ _ I) as (g' & F & Eid).
    exists g'. split; [now apply sorted_games_in|assumption].
  - intros g Hin. apply sorted_games_in, firstWithId_in, in_flat_map in Hin.
    destruct Hin as (lib & Hl & Hg). eauto.
  - rewrite (Permutation_length (sort_perm _ _)).
    apply inj_le. unfold allFound, dedupe, filteri. apply filter_from_length.
Qed.

Lemma no_application_lost_witness :
  exists info g',
    getInstalledSteamGames Demo.host = Ok info /\
    In g' (games info) /\ appid g' = 400.
Proof.
  eexists. 
  destruct (no_application_lost Demo.host _ eq_refl)
    as (steamPath & extras & G & L & A & _).
  vm_compute in G. injection G as <-.
  vm_compute in L. injection L as <-.
  destruct (A "D:\\Games"
              (gameRecord Demo.host "D:\\Games" 400
                 (Demo.manifest "Portal" "Portal" "4000000000") "Portal" "Portal"))
    as (g' & I & Eid).
  - right. right. now left.
  - vm_compute. right. now left.
  - exists g'. split; [reflexivity|]. split; [exact I|exact Eid].
Defined.

(** X8.  Deduplication changes nothing when there is nothing to remove:
    applied twice it gives what it gives once; on records with pairwise
    distinct appids it returns them all, in order; and a scan whose
    libraries, those the enumerator returns for the resolved installation
    path, hold no application twice returns a rearrangement of all the
    records found, with a count equal to their number. *)
Theorem dedupe_exact (h : Host) :
  (forall l, dedupe (dedupe l) = dedupe l) /\
  (forall l, NoDup (map appid l) -> dedupe l = l) /\
  (forall info, getInstalledSteamGames h = Ok info ->
     exists steamPath extras,
       getSteamPath h = Ok (Some steamPath) /\
       getSteamLibraryPaths h steamPath = Ok (steamPath :: extras) /\
       (NoDup (map appid (allFound h (steamPath :: extras))) ->
        Permutation (games info) (allFound h (steamPath :: extras)) /\
        gameCount info = Z.of_nat (List.length (allFound h (steamPath :: extras))))).
Proof.
  split; [|split].
  - intros l. apply dedupe_distinct, dedupe_NoDup.
  - apply dedupe_distinct.
  - intros info E. apply getInstalledSteamGames_ok in E.
    destruct E as (steamPath & extras & G & L & ->).
    exists steamPath, extras. split; [assumption|]. split; [assumption|]. intros N.
    cbn [summary games gameCount]. unfold allFound in *.
    rewrite (dedupe_distinct _ N). split; [apply sort_perm|].
    now rewrite (Permutation_length (sort_perm _ _)).
Qed.

Lemma dedupe_exact_witness :
  exists info,
    getInstalledSteamGames Machines.secondDisk = Ok info /\
    Permutation (games info) (allFound Machines.secondDisk ["D:\\Games"]) /\
    gameCount info = 3.
Proof.
  eexists. split; [vm_compute; reflexivity|].
  destruct (proj2 (proj2 (dedupe_exact Machines.secondDisk)) _ eq_refl)
    as (steamPath & extras & G & L & P).
  vm_compute in G. injection G as <-.
  vm_compute in L. injection L as <-.
  destruct P as (Pm & Ct).
  - vm_compute. repeat constructor; cbn; intuition discriminate.
  - split; [exact Pm|exact Ct].
Defined.

Lemma flat_map_nil {A B : Type} (f : A -> list B) (l : list A) :
  flat_map f l = [] <-> forall x, In x l -> f x = [].
Proof.
  induction l as [|y l IH]; cbn.
  - split; [intros _ ? []|reflexivity].
  - split.
    + intros E. apply app_eq_nil in E as [Ey El].
      intros x [<-|Hin]; [assumption|]. now apply IH.
    + intros H. rewrite (H y) by now left. cbn. apply IH. intros x Hin. apply H. now right.
Qed.

Lemma gameCount_games (h : Host) (info : SteamLibraryInfo) :
  getInstalledSteamGames h = Ok info ->
  0 <= gameCount info /\ (gameCount info = 0 <-> games info = []).
Proof.
  intros E. apply getInstalledSteamGames_ok in E.
  destruct E as (steamPath & extras & _ & _ & ->).
  cbn [summary games gameCount]. split; [lia|].
  destruct (sort (byName h) (dedupe (flat_map (libraryGames h) (steamPath :: extras))));
    cbn [List.length]; split; try reflexivity; try discriminate; lia.
Qed.

(** X9.  The count of a scan is not negative, and it is zero exactly when
    no library path of the scan, those the enumerator returns for the
    resolved installation path, contributes any game. *)
Theorem gameCount_zero (h : Host) (info : SteamLibraryInfo) :
  getInstalledSteamGames h = Ok info ->
  exists steamPath extras,
    getSteamPath h = Ok (Some steamPath) /\
    getSteamLibraryPaths h steamPath = Ok (steamPath :: extras) /\
    0 <= gameCount info /\
    (gameCount info = 0 <->
     forall lib, In lib (steamPath :: extras) -> parseAppManifests h lib = Ok []) /\
    (gameCount info = 0 <-> games info = []).
Proof.
  intros E. destruct (gameCount_games h info E) as [Pos Z0].
  apply getInstalledSteamGames_ok in E.
  destruct E as (steamPath & extras & G & L & ->).
  exists steamPath, extras. split; [assumption|]. split; [assumption|].
  split; [exact Pos|]. split; [|exact Z0].
  rewrite Z0. cbn [summary games].
  rewrite sort_nil, dedupe_nil, flat_map_nil.
  split; intros H lib Hin.
  - rewrite parseAppManifests_libraryGames. now rewrite (H lib Hin).
  - specialize (H lib Hin). rewrite parseAppManifests_libraryGames in H. congruence.
Qed.

Lemma gameCount_zero_witness :
  exists info,
    getInstalledSteamGames Machines.emptyLibrary = Ok info /\ gameCount info = 0.
Proof.
  eexists. split; [vm_compute; reflexivity|].
  destruct (gameCount_zero Machines.emptyLibrary _ eq_refl)
    as (steamPath & extras & G & L & _ & Z0 & _).
  vm_compute in G. injection G as <-.
  vm_compute in L. injection L as <-.
  apply Z0. intros lib [<-|[]]. reflexivity.
Defined.

(** *** Formatters *)

Lemma roundDiv_multiple (k b : Z) : 0 < b -> roundDiv (k * b * 100) b = 100 * k.
Proof.
  intros H. unfold roundDiv. symmetry.
  apply (Z.div_unique _ _ _ b); lia.
Qed.

Lemma showHundredths_whole (k : Z) : showHundredths (100 * k) = Str.ofZ k.
Proof.
  unfold showHundredths.
  replace (100 * k) with (k * 100) by lia.
  now rewrite Z.mod_mul, Z.div_mul by lia.
Qed.

(** X10.  A byte count that is a whole number [k] of units, with
    [1 <= k < 1024], is printed as [k] without decimals followed by the
    unit; in particular every count below 1024 is printed as itself
    followed by B. *)
Theorem formatFileSize_whole (k i : Z) :
  1 <= k < 1024 -> 0 <= i ->
  formatFileSize (k * 1024 ^ i) = Str.ofZ k ++ " " ++ unitAt i /\
  formatFileSize k = Str.ofZ k ++ " B".
Proof.
  intros Hk Hi.
  assert (G : forall j, 0 <= j ->
                formatFileSize (k * 1024 ^ j) = Str.ofZ k ++ " " ++ unitAt j).
  { intros j Hj. assert (P : 0 < 1024 ^ j) by (apply Z.pow_pos_nonneg; lia).
    rewrite (formatFileSize_eq (k * 1024 ^ j) j Hj).
    - now rewrite roundDiv_multiple, showHundredths_whole.
    - rewrite Z.pow_add_r by lia. change (1024 ^ 1) with 1024. nia. }
  split; [now apply G|].
  specialize (G 0 ltac:(lia)). change (1024 ^ 0) with 1 in G.
  now rewrite Z.mul_1_r in G.
Qed.

Lemma formatFileSize_whole_witness :
  formatFileSize (3 * 1024 ^ 3) = "3 GB" /\ formatFileSize 3 = "3 B".
Proof. apply (formatFileSize_whole 3 3); lia. Defined.

(** X11.  For a byte count [bytes >= 1] below 2^46, the range in which
    the source's floating-point scaling is exact, and
    [i = floor(log_1024 bytes)], the number printed, in hundredths, is the
    scaled value rounded to the nearest hundredth: it differs from
    [100 * bytes / 1024^i] by at most one half, and lies between 100 and
    102400, so that the text shows a value from 1 to 1024; 1024 is reached
    just below a power of 1024. *)
Theorem formatFileSize_rounding (bytes i : Z) :
  0 <= i -> 1024 ^ i <= bytes < 1024 ^ (i + 1) -> bytes < 2 ^ 46 ->
  let shown := roundDiv (bytes * 100) (1024 ^ i) in
  formatFileSize bytes = showHundredths shown ++ " " ++ unitAt i /\
  2 * Z.abs (shown * 1024 ^ i - 100 * bytes) <= 1024 ^ i /\
  100 <= shown <= 102400 /\
  formatFileSize (1024 * 1024 - 1) = "1024 KB".
Proof.
  intros Hi Hb _. cbv zeta.
  split; [now apply formatFileSize_eq|]. split; [|split; [|reflexivity]].
  - unfold roundDiv.
    assert (P : 0 < 1024 ^ i) by (apply Z.pow_pos_nonneg; lia).
    pose proof (Z.div_mod (2 * (bytes * 100) + 1024 ^ i) (2 * 1024 ^ i) ltac:(lia)) as DM.
    pose proof (Z.mod_pos_bound (2 * (bytes * 100) + 1024 ^ i) (2 * 1024 ^ i) ltac:(lia)) as MB.
    set (q := (2 * (bytes * 100) + 1024 ^ i) / (2 * 1024 ^ i)) in *.
    set (r := (2 * (bytes * 100) + 1024 ^ i) mod (2 * 1024 ^ i)) in *.
    set (b := 1024 ^ i) in *. nia.
  - unfold roundDiv.
    assert (P : 0 < 1024 ^ i) by (apply Z.pow_pos_nonneg; lia).
    rewrite Z.pow_add_r in Hb by lia. change (1024 ^ 1) with 1024 in Hb.
    set (b := 1024 ^ i) in *. split.
    + apply Z.div_le_lower_bound; nia.
    + assert ((2 * (bytes * 100) + b) / (2 * b) < 102401); [|lia].
      apply Z.div_lt_upper_bound; nia.
Qed.

Lemma formatFileSize_rounding_witness :
  formatFileSize 1126 = "1.1 KB" /\
  2 * Z.abs (110 * 1024 - 100 * 1126) <= 1024.
Proof.
  destruct (formatFileSize_rounding 1126 1) as (E & A & _).
  - lia.
  - vm_compute. split; [discriminate|reflexivity].
  - vm_compute. reflexivity.
  - split; [exact E|exact A].
Defined.

(** X12.  For a timestamp later than now, and at most 2^33 so that the
    source's floating-point day difference is the exact one, the day
    difference [d] is negative, and the text is that negative number
    followed by days ago. *)
Theorem formatLastUpdated_future (nowMs timestamp : Z) :
  0 <= nowMs -> timestamp <= 2 ^ 33 ->
  nowMs < 1000 * timestamp ->
  exists d,
    d <= -1 /\
    d * 86400000 <= nowMs - 1000 * timestamp < (d + 1) * 86400000 /\
    formatLastUpdated nowMs timestamp = Str.ofZ d ++ " days ago".
Proof.
  intros _ _ F. pose proof (daysSince_bounds nowMs timestamp) as B.
  exists (daysSince nowMs timestamp). unfold formatLastUpdated. cbv zeta.
  set (d := daysSince nowMs timestamp) in *.
  assert (d <= -1) by lia.
  split; [assumption|]. split; [exact B|].
  destruct (Z.eqb_spec d 0); [lia|]. destruct (Z.eqb_spec d 1); [lia|].
  destruct (Z.ltb_spec d 7); [reflexivity|lia].
Qed.

Lemma formatLastUpdated_future_witness :
  formatLastUpdated 1700000000000 1700000060 = "-1 days ago".
Proof.
  destruct (formatLastUpdated_future 1700000000000 1700000060) as (d & L & B & E);
    [lia|vm_compute; discriminate|lia|].
  assert (d = -1) as -> by lia. exact E.
Defined.

(** ** The views *)

Lemma startsWith_spec (s t : string) :
  Str.startsWith s t = true <-> exists post, s = t ++ post.
Proof.
  unfold Str.startsWith. split.
  - destruct (Str.strip_prefix t s) as [r|] eqn:E; [|discriminate].
    intros _. exists r. now apply strip_prefix_some.
  - intros (post & ->). now rewrite strip_prefix_append.
Qed.

(** [includes] is the substring test. *)
Lemma includes_spec (s t : string) :
  includes s t = true <-> exists pre post, s = pre ++ t ++ post.
Proof.
  induction s as [|c s IH]; cbn [includes].
  - rewrite orb_false_r, startsWith_spec. split.
    + intros (post & E). exists "", post. exact E.
    + intros (pre & post & E). destruct pre; [|discriminate]. eauto.
  - rewrite orb_true_iff, startsWith_spec, IH. split.
    + intros [(post & E)|(pre & post & E)].
      * exists "", post. exact E.
      * exists (String c pre), post. cbn. now rewrite E.
    + intros (pre & post & E). destruct pre as [|x pre]; cbn in E.
      * left. eauto.
      * right. injection E as -> E. eauto.
Qed.

Lemma includes_empty (s : string) : includes s "" = true.
Proof. apply includes_spec. exists "", s. reflexivity. Qed.

Lemma latin1_lower_append (a b : string) :
  Latin1.toLowerCase (a ++ b) = Latin1.toLowerCase a ++ Latin1.toLowerCase b.
Proof. induction a as [|c a IH]; cbn; [reflexivity|now rewrite IH]. Qed.

Lemma filter_all {A : Type} (p : A -> bool) (l : list A) :
  (forall x, In x l -> p x = true) -> filter p l = l.
Proof.
  induction l as [|y l IH]; cbn; [reflexivity|]. intros H.
  rewrite (H y) by now left. f_equal. apply IH. intros x Hin. apply H. now right.
Qed.

(** X13.  The search of the library view: with an empty search text every
    game is listed; a game is listed exactly when it is one of the games
    and its lower-cased name contains the lower-cased search text; so a
    game whose name contains the text in any letter case is listed. *)
Theorem filteredGames_search (shown : list SteamGame) :
  filteredGames shown "" = shown /\
  (forall g q, In g (filteredGames shown q) <->
     In g shown /\
     exists pre post,
       Latin1.toLowerCase (name g) = pre ++ Latin1.toLowerCase q ++ post) /\
  (forall g q pre part post,
     In g shown ->
     name g = pre ++ part ++ post ->
     Latin1.toLowerCase part = Latin1.toLowerCase q ->
     In g (filteredGames shown q)).
Proof.
  assert (Spec : forall g q, In g (filteredGames shown q) <->
            In g shown /\
            exists pre post,
              Latin1.toLowerCase (name g) = pre ++ Latin1.toLowerCase q ++ post).
  { intros g q. unfold filteredGames. rewrite filter_In, includes_spec. reflexivity. }
  split; [|split; [exact Spec|]].
  - unfold filteredGames. apply filter_all. intros x _. apply includes_empty.
  - intros g q pre part post Hin E L. apply Spec. split; [assumption|].
    exists (Latin1.toLowerCase pre), (Latin1.toLowerCase post).
    now rewrite E, !latin1_lower_append, L.
Qed.

Lemma filteredGames_search_witness :
  exists info g,
    getInstalledSteamGames Demo.host = Ok info /\
    In g (filteredGames (games info) "PORTAL 2") /\ name g = "portal 2".
Proof.
  eexists. eexists. split; [vm_compute; reflexivity|]. split.
  - apply (proj2 (proj2 (filteredGames_search _)) _ "PORTAL 2" "" "portal 2" "").
    + right. right. right. left. reflexivity.
    + reflexivity.
    + reflexivity.
  - reflexivity.
Defined.

Section SortedOn.
Context {A : Type}.
Variable cmp : A -> A -> Z.
Variable P : A -> Prop.
Hypothesis cmp_total : forall a b, P a -> P b -> cmp a b <= 0 \/ cmp b a <= 0.
Hypothesis cmp_trans :
  forall a b c, P a -> P b -> P c -> cmp a b <= 0 -> cmp b c <= 0 -> cmp a c <= 0.

Lemma insert_sorted_on (x : A) (l : list A) :
  P x -> Forall P l ->
  StronglySorted (fun a b => cmp a b <= 0) l ->
  StronglySorted (fun a b => cmp a b <= 0) (insert cmp x l).
Proof.
  intros Px Pl S. induction S as [|y l S IH F]; cbn.
  - repeat constructor.
  - inversion Pl as [|? ? Py Pl']. subst.
    destruct (Z.leb_spec (cmp x y) 0) as [L|G].
    + constructor; [now constructor|]. constructor; [assumption|].
      rewrite Forall_forall in *. intros z Hz. apply (cmp_trans x y z); auto.
    + constructor; [now apply IH|].
      assert (L : cmp y x <= 0) by (destruct (cmp_total x y Px Py); [lia|assumption]).
      eapply Permutation_Forall; [symmetry; apply insert_perm|].
      now constructor.
Qed.

Lemma sort_sorted_on (l : list A) :
  Forall P l -> StronglySorted (fun a b => cmp a b <= 0) (sort cmp l).
Proof.
  induction l as [|x l IH]; cbn; [constructor|]. intros Pl.
  inversion Pl as [|? ? Px Pl']. subst.
  apply insert_sorted_on; [assumption| |now apply IH].
  eapply Permutation_Forall; [symmetry; apply sort_perm|assumption].
Qed.

End SortedOn.

Lemma StronglySorted_impl_on {A : Type} (P : A -> Prop) (R Q : A -> A -> Prop)
      (l : list A) :
  (forall a b, P a -> P b -> R a b -> Q a b) ->
  Forall P l -> StronglySorted R l -> StronglySorted Q l.
Proof.
  intros I Pl S. induction S as [|x l S IH F]; [constructor|].
  inversion Pl as [|? ? Px Pl']. subst. constructor; [now apply IH|].
  rewrite Forall_forall in *. intros y Hy. apply I; auto.
Qed.

Lemma filteredGames_Forall (P : SteamGame -> Prop) (shown : list SteamGame) (q : string) :
  Forall P shown -> Forall P (filteredGames shown q).
Proof.
  rewrite !Forall_forall. intros H g Hin. apply H.
  unfold filteredGames in Hin. now apply filter_In in Hin.
Qed.

(** X14.  The order of the library view.  The list shown is always a
    rearrangement of the games that pass the search.  When every game has
    an update time (set and not 0) the list is sorted by update time, most
    recent first.  When no game has one and the host's collation is a
    consistent comparator, the list is sorted by name. *)
Theorem sortedGames_order (h : Host) (shown : list SteamGame) (q : string) :
  Permutation (sortedGames h shown q) (filteredGames shown q) /\
  (Forall hasUpdateTime shown ->
   StronglySorted (fun a b => recency b <= recency a) (sortedGames h shown q)) /\
  (Forall (fun g => ~ hasUpdateTime g) shown -> consistentCollation h ->
   StronglySorted (nameOrder h) (sortedGames h shown q)).
Proof.
  unfold sortedGames. split; [apply sort_perm|]. split.
  - intros F. pose proof (filteredGames_Forall _ _ q F) as Ff.
    apply (StronglySorted_impl_on hasUpdateTime (fun a b => byRecency h a b <= 0)).
    + intros a b Ha Hb. unfold byRecency, recency, hasUpdateTime in *.
      rewrite Ha, Hb. cbn [andb]. lia.
    + eapply Permutation_Forall; [symmetry; apply sort_perm|exact Ff].
    + apply (sort_sorted_on (byRecency h) hasUpdateTime); [| |exact Ff].
      * intros a b Ha Hb. unfold byRecency, hasUpdateTime in *.
        rewrite Ha, Hb. cbn [andb]. lia.
      * intros a b c Ha Hb Hc. unfold byRecency, hasUpdateTime in *.
        rewrite Ha, Hb, Hc. cbn [andb]. lia.
  - intros F [T Tr]. pose proof (filteredGames_Forall _ _ q F) as Ff.
    assert (N : forall a b, ~ hasUpdateTime a ->
                  byRecency h a b = localeCompare h (name a) (name b)).
    { intros a b Ha. unfold byRecency, hasUpdateTime in *.
      destruct (truthyNumber (lastUpdated a)); [congruence|reflexivity]. }
    apply (StronglySorted_impl_on (fun g => ~ hasUpdateTime g)
             (fun a b => byRecency h a b <= 0)).
    + intros a b Ha Hb. unfold nameOrder. now rewrite (N a b Ha).
    + eapply Permutation_Forall; [symmetry; apply sort_perm|exact Ff].
    + apply (sort_sorted_on (byRecency h) (fun g => ~ hasUpdateTime g)); [| |exact Ff].
      * intros a b Ha Hb. rewrite (N a b Ha), (N b a Hb). apply T.
      * intros a b c Ha Hb Hc. rewrite (N a b Ha), (N b c Hb), (N a c Ha). apply Tr.
Qed.

Lemma sortedGames_order_witness :
  exists l,
    sortedGames Demo.host (libraryGames Demo.host "D:\\Games") "" = l /\
    StronglySorted (fun a b => recency b <= recency a) l /\
    map appid l = [570; 400; 730].
Proof.
  eexists. split; [reflexivity|]. split; [|reflexivity].
  apply (sortedGames_order Demo.host (libraryGames Demo.host "D:\\Games") "").
  vm_compute. repeat constructor.
Defined.

(** X15.  [loadLibrary] always ends with the loading flag off and keeps
    the search text.  It shows the failure toast exactly when the platform
    is not win32 or no installation path is resolved, and then leaves the
    games, the total size and the count as they were; it shows No Games
    Found exactly when the scan succeeds with no game, and Library Loaded,
    with the count in the message, exactly when the scan finds at least
    one game, and then stores the result of the scan. *)
Theorem loadLibrary_outcome (h : Host) (st : Library.State) :
  let st' := fst (loadLibrary h st) in
  let toast := snd (loadLibrary h st) in
  Library.isLoading st' = false /\
  Library.searchText st' = Library.searchText st /\
  (Ui.style toast = Ui.Failure <->
     platform h <> "win32" \/ getSteamPath h = Ok None) /\
  (Ui.style toast = Ui.Failure ->
     Library.games st' = Library.games st /\
     Library.totalSize st' = Library.totalSize st /\
     Library.gameCount st' = Library.gameCount st) /\
  (Ui.style toast = Ui.Animated <->
     exists info, getInstalledSteamGames h = Ok info /\ games info = []) /\
  (Ui.style toast = Ui.Success <->
     exists info, getInstalledSteamGames h = Ok info /\ games info <> []) /\
  (forall info, getInstalledSteamGames h = Ok info ->
     Library.games st' = games info /\
     Library.totalSize st' = totalSize info /\
     Library.gameCount st' = gameCount info /\
     (games info <> [] ->
      Ui.message toast = "Found " ++ Str.ofZ (gameCount info) ++ " installed games")).
Proof.
  cbv zeta. unfold loadLibrary.
  pose proof (getInstalledSteamGames_cases h) as C.
  destruct (getInstalledSteamGames h) as [info|e] eqn:E.
  - destruct C as (W & p & G).
    destruct (gameCount_games h info E) as (Pos & Z0).
    cbn [fst snd Library.isLoading Library.searchText Library.games
         Library.totalSize Library.gameCount].
    split; [reflexivity|]. split; [reflexivity|].
    destruct (Z.ltb_spec 0 (gameCount info)) as [L|L]; cbn [Ui.style Ui.message].
    + assert (N : games info <> []) by (intros N; apply Z0 in N; lia).
      split; [split; [discriminate|intros [X|X]; [contradiction|congruence]]|].
      split; [discriminate|].
      split; [split; [discriminate|intros (i & [= <-] & X); contradiction]|].
      split; [split; [eauto|reflexivity]|].
      intros i [= <-]. auto.
    + assert (N : games info = []) by (apply Z0; lia).
      split; [split; [discriminate|intros [X|X]; [contradiction|congruence]]|].
      split; [discriminate|].
      split; [split; [eauto|reflexivity]|].
      split; [split; [discriminate|intros (i & [= <-] & X); contradiction]|].
      intros i [= <-]. repeat split; auto. contradiction.
  - cbn [fst snd Library.isLoading Library.searchText Library.games
         Library.totalSize Library.gameCount Ui.style].
    split; [reflexivity|]. split; [reflexivity|].
    split; [split; [|reflexivity]|].
    { intros _. destruct C as [[W _]|(_ & G & _)]; auto. }
    split; [auto|].
    split; [split; [discriminate|intros (i & X & _); discriminate]|].
    split; [split; [discriminate|intros (i & X & _); discriminate]|].
    intros i X. discriminate.
Qed.

Lemma loadLibrary_outcome_witness :
  Ui.style (snd (loadLibrary Demo.bare Library.initial)) = Ui.Failure /\
  Library.games (fst (loadLibrary Demo.bare Library.initial)) = [] /\
  Ui.message (snd (loadLibrary Demo.host Library.initial)) = "Found 4 installed games".
Proof.
  destruct (loadLibrary_outcome Demo.bare Library.initial) as (_ & _ & F & K & _).
  assert (S : Ui.style (snd (loadLibrary Demo.bare Library.initial)) = Ui.Failure).
  { apply F. right. reflexivity. }
  split; [exact S|]. split; [exact (proj1 (K S))|].
  destruct (loadLibrary_outcome Demo.host Library.initial) as (_ & _ & _ & _ & _ & _ & M).
  destruct (getInstalledSteamGames Demo.host) as [info|e] eqn:E;
    [|vm_compute in E; discriminate].
  destruct (M info eq_refl) as (_ & _ & _ & Msg).
  rewrite Msg.
  - vm_compute in E. injection E as <-. reflexivity.
  - vm_compute in E. injection E as <-. discriminate.
Defined.

Lemma filteredGames_distinct (shown : list SteamGame) (q : string) :
  NoDup (map appid shown) -> NoDup (map appid (filteredGames shown q)).
Proof.
  unfold filteredGames.
  set (keep := fun game => includes (Latin1.toLowerCase (name game))
                                    (Latin1.toLowerCase q)).
  induction shown as [|g shown IH]; cbn [filter map]; [auto|].
  intros N. apply NoDup_cons_iff in N as [Fresh N].
  destruct (keep g); cbn [map]; [|now apply IH].
  apply NoDup_cons; [|now apply IH].
  contradict Fresh. apply in_map_iff in Fresh as (g' & Eid & Hin).
  apply filter_In in Hin as [Hin _]. rewrite <- Eid. now apply in_map.
Qed.

Lemma filteredGames_empty (shown : list SteamGame) : filteredGames shown "" = shown.
Proof. unfold filteredGames. apply filter_all. intros x _. apply includes_empty. Qed.

(** X16.  After a successful load, whatever the search text, the games
    listed are games of the scan and their appids, which the view uses as
    list keys, are pairwise distinct; with an empty search text the list is
    a rearrangement of all the games of the scan. *)
Theorem listed_games_keys (h : Host) (st : Library.State) (info : SteamLibraryInfo)
        (q : string) :
  getInstalledSteamGames h = Ok info ->
  let listed := sortedGames h (Library.games (fst (loadLibrary h st))) q in
  NoDup (map appid listed) /\
  (forall g, In g listed -> In g (games info)) /\
  Permutation (sortedGames h (Library.games (fst (loadLibrary h st))) "") (games info).
Proof.
  intros E. cbv zeta. unfold loadLibrary. rewrite E. cbn [fst Library.games].
  assert (N : NoDup (map appid (games info))).
  { apply getInstalledSteamGames_ok in E.
    destruct E as (steamPath & extras & _ & _ & ->). apply sorted_games_NoDup. }
  unfold sortedGames. split; [|split].
  - eapply Permutation_NoDup.
    + apply Permutation_map. symmetry. apply sort_perm.
    + now apply filteredGames_distinct.
  - intros g Hin. apply (Permutation_in _ (sort_perm _ _)) in Hin.
    unfold filteredGames in Hin. now apply filter_In in Hin.
  - rewrite sort_perm. now rewrite filteredGames_empty.
Qed.

Lemma listed_games_keys_witness :
  NoDup (map appid
           (sortedGames Demo.host
              (Library.games (fst (loadLibrary Demo.host Library.initial))) "o")).
Proof.
  destruct (getInstalledSteamGames Demo.host) as [info|e] eqn:E;
    [|vm_compute in E; discriminate].
  exact (proj1 (listed_games_keys Demo.host Library.initial info "o" E)).
Defined.

(** X17.  [searchStore] opens nothing for a query made of white space
    only (the empty query included) and shows the Search Query Required
    toast.  For any other query it opens exactly one address, the search
    address followed by the encoded query, and then shows one toast, Search
    Opened when the address was opened and Search Failed when opening it
    failed. *)
Theorem searchStore_guard (desk : Desktop) (query : string) :
  (Str.all Str.isSpace query = true ->
   Store.searchStore desk query =
   [ Ui.ShowToast {| Ui.style := Ui.Failure; Ui.title := "Search Query Required";
                     Ui.message := "Please enter a search term" |} ]) /\
  (Str.all Str.isSpace query = false ->
   exists toast,
     Store.searchStore desk query =
     [ Ui.Open ("https://store.steampowered.com/search/?term=" ++
                encodeURIComponent desk query);
       Ui.ShowToast toast ] /\
     (Ui.title toast = "Search Opened" <->
      exists u, open desk ("https://store.steampowered.com/search/?term=" ++
                           encodeURIComponent desk query) = Ok u) /\
     (Ui.title toast = "Search Failed" <->
      exists e, open desk ("https://store.steampowered.com/search/?term=" ++
                           encodeURIComponent desk query) = Throw e)).
Proof.
  unfold Store.searchStore, truthy. split.
  - intros B. apply trim_blank in B. rewrite B. reflexivity.
  - intros B.
    destruct (String.eqb_spec (Str.trim query) "") as [T|T].
    + apply trim_blank in T. congruence.
    + cbn [negb]. cbv zeta.
      destruct (open desk _) as [u|e] eqn:O; eexists; (split; [reflexivity|]);
        cbn [Ui.title]; split; split; try discriminate; eauto;
        intros (x & X); discriminate.
Qed.

Lemma searchStore_guard_witness :
  Store.searchStore DemoDesk.steamOnly "   " =
    [ Ui.ShowToast {| Ui.style := Ui.Failure; Ui.title := "Search Query Required";
                      Ui.message := "Please enter a search term" |} ] /\
  exists toast,
    Store.searchStore DemoDesk.steamOnly "portal" =
    [ Ui.Open "https://store.steampowered.com/search/?term=portal"; Ui.ShowToast toast ] /\
    Ui.title toast = "Search Failed".
Proof.
  split.
  - apply (searchStore_guard DemoDesk.steamOnly "   "). reflexivity.
  - destruct (proj2 (searchStore_guard DemoDesk.steamOnly "portal") eq_refl)
      as (toast & E & _ & F).
    exists toast. split; [exact E|]. apply F. eexists. reflexivity.
Defined.

(** X18.  The category search of the store view: an empty search text
    lists all categories in their order; every category listed is one of
    the table; and typing the title or the description of a category, in
    any letter case, lists that category. *)
Theorem filteredCategories_search :
  Store.filteredCategories "" = Store.storeCategories /\
  (forall c q, In c (Store.filteredCategories q) -> In c Store.storeCategories) /\
  (forall c q, In c Store.storeCategories ->
     Latin1.toLowerCase q = Latin1.toLowerCase (Store.title c) \/
     Latin1.toLowerCase q = Latin1.toLowerCase (Store.description c) ->
     In c (Store.filteredCategories q)).
Proof.
  unfold Store.filteredCategories. split; [|split].
  - apply filter_all. intros x _. now rewrite includes_empty.
  - intros c q Hin. now apply filter_In in Hin.
  - intros c q Hin L. apply filter_In. split; [assumption|].
    apply orb_true_iff.
    destruct L as [-> | ->]; [left|right]; apply includes_spec;
      exists "", ""; cbn; now rewrite append_nil_r.
Qed.

Lemma filteredCategories_search_witness :
  In {| Store.title := "RPG Games";
        Store.url := "https://store.steampowered.com/tags/en/RPG/";
        Store.icon := Store.Bolt;
        Store.description := "Role-playing games" |}
     (Store.filteredCategories "rpg GAMES").
Proof.
  apply (proj2 (proj2 filteredCategories_search)).
  - do 8 right. left. reflexivity.
  - left. reflexivity.
Defined.

(** *** Launching *)

Lemma parseInt_from_uint_acc (d : Decimal.uint) :
  forall acc : positive,
    Str.parseInt_from (Zpos acc) (NilEmpty.string_of_uint d) = Zpos (Pos.of_uint_acc d acc).
Proof.
  induction d; intros acc; cbn [NilEmpty.string_of_uint Pos.of_uint_acc];
    [reflexivity| | | | | | | | | |];
    (match goal with
     | |- Str.parseInt_from _ (String ?c _) = _ =>
         change (Str.parseInt_from (Zpos acc) (String c ?s))
           with (Str.parseInt_from (10 * Zpos acc + Str.digitVal c) s)
     end);
    rewrite <- IHd; f_equal; vm_compute Str.digitVal; lia.
Qed.

Lemma parseInt_from_uint (d : Decimal.uint) :
  Str.parseInt_from 0 (NilEmpty.string_of_uint d) = Z.of_N (Pos.of_uint d).
Proof.
  induction d; cbn [NilEmpty.string_of_uint Pos.of_uint]; [reflexivity| | | | | | | | | |];
    (match goal with
     | |- Str.parseInt_from _ (String ?c ?s) = _ =>
         change (Str.parseInt_from 0 (String c s))
           with (Str.parseInt_from (10 * 0 + Str.digitVal c) s)
     end);
    [exact IHd| | | | | | | | |]; cbn [Z.of_N]; rewrite <- parseInt_from_uint_acc;
    reflexivity.
Qed.

Lemma string_of_uint_digits (d : Decimal.uint) :
  Str.all Str.isDigit (NilEmpty.string_of_uint d) = true.
Proof.
  induction d; cbn [NilEmpty.string_of_uint Str.all]; [reflexivity| | | | | | | | | |];
    rewrite IHd; reflexivity.
Qed.

(** Printing a number that is not negative and reading it back. *)
Lemma parseInt_ofZ (n : Z) :
  0 <= n -> digitRun (Str.ofZ n) /\ Str.parseInt (Str.ofZ n) = n.
Proof.
  intros H. destruct n as [|p|p]; [split; [split; [discriminate|]|]; reflexivity| |lia].
  unfold Str.ofZ, Str.parseInt. cbn [Z.to_int NilEmpty.string_of_int].
  split; [split|].
  - pose proof (DecimalPos.Unsigned.to_uint_nonnil p) as N.
    destruct (Pos.to_uint p); try contradiction; discriminate.
  - apply string_of_uint_digits.
  - rewrite parseInt_from_uint. now rewrite DecimalPos.Unsigned.of_to.
Qed.

(** X19.  For an appid from 0 to 2^53, the range in which the source's
    number prints as its decimal digits, [launchGame] opens exactly one
    address, steam://run/ followed by a run of decimal digits that reads
    back as the appid, and then shows one toast: Game Launched when the
    address was opened, Launch Failed when opening it failed. *)
Theorem launchGame_address (desk : Desktop) (appId : Z) (gameName : string) :
  0 <= appId <= 2 ^ 53 ->
  exists digits toast,
    launchGame desk appId gameName =
      [ Ui.Open ("steam://run/" ++ digits); Ui.ShowToast toast ] /\
    digitRun digits /\ Str.parseInt digits = appId /\
    (Ui.style toast = Ui.Success <->
     exists u, open desk ("steam://run/" ++ digits) = Ok u) /\
    (Ui.style toast = Ui.Failure <->
     exists e, open desk ("steam://run/" ++ digits) = Throw e).
Proof.
  intros [H _]. destruct (parseInt_ofZ appId H) as [D P].
  exists (Str.ofZ appId). unfold launchGame. cbv zeta.
  destruct (open desk ("steam://run/" ++ Str.ofZ appId)) as [u|e] eqn:O;
    eexists; (split; [reflexivity|]); (split; [exact D|]); (split; [exact P|]);
    cbn [Ui.style]; split; split; try discriminate; eauto;
    intros (x & X); discriminate.
Qed.

Lemma launchGame_address_witness :
  exists toast,
    launchGame DemoDesk.steamOnly 570 "Dota 2" =
      [ Ui.Open "steam://run/570"; Ui.ShowToast toast ] /\
    Ui.style toast = Ui.Success.
Proof.
  destruct (launchGame_address DemoDesk.steamOnly 570 "Dota 2") as
    (digits & toast & E & D & P & S & _); [split; [lia|vm_compute; discriminate]|].
  assert (digits = "570") as ->.
  { vm_compute in E. now injection E as -> _. }
  exists toast. split; [exact E|]. apply S. eexists. reflexivity.
Defined.

(** ** Error propagation of the whole scan *)

(** C2.  The scan throws in exactly two cases, an unsupported platform and
    an unresolved installation path.  Every other failure is absorbed: the
    enumerator and the scanner always return; an unreadable descriptor
    leaves the base path alone; a missing or unreadable steamapps directory
    gives no games; an unreadable manifest contributes nothing, and the
    scan of a directory is the concatenation of what each manifest
    contributes.  With a resolved path the scan returns, and its result is
    built from the games of every library the enumerator returned, each
    library giving what its scan gives (nothing, when it failed), so that a
    failure in one library or manifest leaves the games of the others in
    the result. *)
Theorem getInstalledSteamGames_propagation (h : Host) :
  (forall e, getInstalledSteamGames h = Throw e <->
     (platform h <> "win32" /\ e = unsupportedMessage) \/
     (platform h = "win32" /\ getSteamPath h = Ok None /\ e = notFoundMessage)) /\
  (forall steamPath, exists extras,
     getSteamLibraryPaths h steamPath = Ok (steamPath :: extras)) /\
  (forall steamPath e,
     readFile h (join h [steamPath; "steamapps"; "libraryfolders.vdf"]) = Throw e ->
     getSteamLibraryPaths h steamPath = Ok [steamPath]) /\
  (forall lib, exists found, parseAppManifests h lib = Ok found) /\
  (forall lib, existsSync h (steamappsOf h lib) = false ->
     parseAppManifests h lib = Ok []) /\
  (forall lib e, readdir h (steamappsOf h lib) = Throw e ->
     parseAppManifests h lib = Ok []) /\
  (forall lib files, existsSync h (steamappsOf h lib) = true ->
     readdir h (steamappsOf h lib) = Ok files ->
     parseAppManifests h lib =
     Ok (flat_map (contribution h lib) (filter isManifestFile files))) /\
  (forall lib file,
     existsSync h (manifestPathOf h lib file) = false -> contribution h lib file = []) /\
  (forall lib file e,
     readFile h (manifestPathOf h lib file) = Throw e -> contribution h lib file = []) /\
  (forall steamPath, getSteamPath h = Ok (Some steamPath) ->
     exists extras,
       getSteamLibraryPaths h steamPath = Ok (steamPath :: extras) /\
       getInstalledSteamGames h =
       Ok (summary (sort (byName h)
                      (dedupe (flat_map (libraryGames h) (steamPath :: extras)))))) /\
  (forall lib,
     parseAppManifests h lib = Ok (libraryGames h lib) /\
     libraryGames h lib =
     if existsSync h (steamappsOf h lib) then
       match readdir h (steamappsOf h lib) with
       | Ok files => flat_map (contribution h lib) (filter isManifestFile files)
       | Throw _ => []
       end
     else []) /\
  (forall steamPath info lib g,
     getSteamPath h = Ok (Some steamPath) ->
     getInstalledSteamGames h = Ok info ->
     (exists extras, getSteamLibraryPaths h steamPath = Ok (steamPath :: extras) /\
                     In lib (steamPath :: extras)) ->
     In g (libraryGames h lib) ->
     exists g', In g' (games info) /\ appid g' = appid g).
Proof.
  split; [|split; [|split; [|split; [|split; [|split; [|split; [|split;
    [|split; [|split; [|split]]]]]]]]]].
  - intros e. pose proof (getInstalledSteamGames_cases h) as C. split.
    + intros E. rewrite E in C. exact C.
    + intros [[W ->]|(W & G & ->)].
      * unfold getInstalledSteamGames. now rewrite (getSteamPath_other h W).
      * unfold getInstalledSteamGames. now rewrite G.
  - apply getSteamLibraryPaths_ok.
  - apply getSteamLibraryPaths_unreadable.
  - intros lib. rewrite parseAppManifests_eq. eauto.
  - intros lib E. rewrite parseAppManifests_eq. now rewrite E.
  - intros lib e E. rewrite parseAppManifests_eq. rewrite E. now destruct (existsSync h _).
  - intros lib files E R. rewrite parseAppManifests_eq. now rewrite E, R.
  - intros lib file E. unfold contribution, scanManifest, readManifest.
    cbv zeta. unfold manifestPathOf, steamappsOf in E. now rewrite E.
  - intros lib file e E. unfold contribution, scanManifest, readManifest.
    cbv zeta. unfold manifestPathOf, steamappsOf in E. rewrite E.
    now destruct (existsSync h _).
  - apply getInstalledSteamGames_found.
  - intros lib. split; [apply parseAppManifests_libraryGames|].
    pose proof (parseAppManifests_eq h lib) as E.
    rewrite parseAppManifests_libraryGames in E. now injection E.
  - intros steamPath info lib g G E (extras & L & Hl) Hg.
    destruct (getInstalledSteamGames_found h steamPath G) as (extras' & L' & E').
    rewrite L in L'. injection L' as <-. rewrite E in E'. injection E' as ->.
    cbn [summary games].
    assert (I : In g (flat_map (libraryGames h) (steamPath :: extras))).
    { apply in_flat_map. eauto. }
    destruct (firstWithId_exists _ _ I) as (g' & F & Eid).
    exists g'. split; [now apply sorted_games_in|assumption].
Qed.

Lemma getInstalledSteamGames_propagation_witness :
  getInstalledSteamGames Demo.linux = Throw unsupportedMessage /\
  getInstalledSteamGames Demo.bare = Throw notFoundMessage /\
  getSteamLibraryPaths Demo.host "D:\\Games" = Ok ["D:\\Games"] /\
  parseAppManifests Demo.host "E:\\Gone" = Ok [] /\
  contribution Demo.host "D:\\Games" "appmanifest_999.acf" = [] /\
  exists info,
    getInstalledSteamGames Demo.host = Ok info /\
    map appid (games info) = [730; 570; 400; 620].
Proof.
  split; [|split; [|split; [|split; [|split]]]].
  - apply (getInstalledSteamGames_propagation Demo.linux). left.
    split; [discriminate|reflexivity].
  - apply (getInstalledSteamGames_propagation Demo.bare). right.
    repeat split; reflexivity.
  - destruct (getInstalledSteamGames_propagation Demo.host)
      as (_ & _ & U & _).
    apply (U "D:\\Games" "ENOENT: no such file or directory"). reflexivity.
  - destruct (getInstalledSteamGames_propagation Demo.host)
      as (_ & _ & _ & _ & M & _).
    apply (M "E:\\Gone"). reflexivity.
  - destruct (getInstalledSteamGames_propagation Demo.host)
      as (_ & _ & _ & _ & _ & _ & _ & X & _).
    apply (X "D:\\Games" "appmanifest_999.acf"). reflexivity.
  - destruct (getInstalledSteamGames_propagation Demo.host)
      as (_ & _ & _ & _ & _ & _ & _ & _ & _ & R & _).
    destruct (R "C:\Steam" eq_refl) as (extras & L & E).
    vm_compute in L. injection L as <-.
    eexists. split; [exact E|]. reflexivity.
Defined.
